(** * lazyaws: the interactive state machine and the instance filter

    A shallow embedding of [main.go]: the [model] record, its [Update]
    reducer, the filter block of [renderEC2], and the older [Update] of
    the revision that has no filter yet.

    Go strings are byte sequences and are modelled by [string]; Go [int]
    values that only index or count are modelled by [Z] where the code
    does arithmetic on them.  The bubbletea runtime, the bubbles text
    input and Go's Unicode case tables live outside the repository; what
    the code uses of them is stated where it is introduced. *)

From Stdlib Require Import String Ascii List Bool ZArith Arith Lia.
Import ListNotations.
Open Scope string_scope.

(** ** Go's [strings] package, on byte strings *)

Module strings.

(** [strings.HasPrefix s p]. *)
Definition HasPrefix (s p : string) : bool := String.prefix p s.

(** [strings.Contains s substr]: [substr] occurs at some offset of [s]. *)
Fixpoint Contains (s substr : string) : bool :=
  HasPrefix s substr ||
  match s with
  | EmptyString => false
  | String _ s' => Contains s' substr
  end.

(** Drop the first [n] bytes. *)
Fixpoint skip (n : nat) (s : string) : string :=
  match n, s with
  | O, _ => s
  | S n', String _ s' => skip n' s'
  | S _, EmptyString => EmptyString
  end.

(** Split [s] around the first occurrence of [sep]. *)
Fixpoint cut (s sep : string) : option (string * string) :=
  if HasPrefix s sep then Some (EmptyString, skip (String.length sep) s)
  else match s with
       | EmptyString => None
       | String c s' =>
           match cut s' sep with
           | Some (before, after) => Some (String c before, after)
           | None => None
           end
       end.

(** [strings.SplitN s sep 2] for a non-empty [sep]: at most two pieces,
    the second one being everything after the first [sep]. *)
Definition SplitN_2 (s sep : string) : list string :=
  match cut s sep with
  | Some (before, after) => [before; after]
  | None => [s]
  end.

End strings.

(** ** The [aws] and [config] packages, as [main.go] uses them *)

(** Modelled from the spec: the tag type of [internal/aws], a key and a
    value, read by [renderEC2] as [tag.Key] and [tag.Value]. *)
Record Tag := { Key : string; Value : string }.

(** Modelled from the spec: [aws.Instance] of [internal/aws], with the
    fields [renderEC2] reads; [Tags] is ranged over in order. *)
Record Instance := {
  ID : string;
  Name : string;
  State : string;
  InstanceType : string;
  PublicIP : string;
  PrivateIP : string;
  Tags : list Tag
}.

(** Modelled from the spec: [aws.Client] of [internal/aws]; the only
    thing [main.go] asks of a client is its region. *)
Record Client := { GetRegion : string }.

(** Modelled from the spec: [config.Config] of [internal/config], the
    selected region and the list of selectable regions. *)
Record Config := { Region : string; Regions : list string }.

(** ** The filter block of [renderEC2] *)

Section Filter.

(** Go's [strings.ToLower]; its Unicode case tables are taken as given. *)
Variable ToLower : string -> string.

(** The test of the inner loop's [if]. *)
Definition tagMatches (tagKey tagValue : string) (tag : Tag) : bool :=
  String.eqb (Key tag) tagKey &&
  strings.Contains (ToLower (Value tag)) (ToLower tagValue).

(** [for _, tag := range inst.Tags { if ... { append; break } }]. *)
Fixpoint tagLoop (tagKey tagValue : string) (inst : Instance)
    (tags : list Tag) (filteredInstances : list Instance) : list Instance :=
  match tags with
  | [] => filteredInstances
  | tag :: rest =>
      if tagMatches tagKey tagValue tag
      then filteredInstances ++ [inst]
      else tagLoop tagKey tagValue inst rest filteredInstances
  end.

(** The outer loop of the tag branch. *)
Fixpoint tagFilterLoop (tagKey tagValue : string)
    (insts : list Instance) (filteredInstances : list Instance)
    : list Instance :=
  match insts with
  | [] => filteredInstances
  | inst :: rest =>
      tagFilterLoop tagKey tagValue rest
        (tagLoop tagKey tagValue inst (Tags inst) filteredInstances)
  end.

(** The test of the state branch's [if]. *)
Definition stateMatches (filter : string) (inst : Instance) : bool :=
  strings.Contains (ToLower (State inst)) (ToLower filter).

(** The loop of the state branch. *)
Fixpoint stateFilterLoop (filter : string)
    (insts : list Instance) (filteredInstances : list Instance)
    : list Instance :=
  match insts with
  | [] => filteredInstances
  | inst :: rest =>
      stateFilterLoop filter rest
        (if stateMatches filter inst
         then filteredInstances ++ [inst]
         else filteredInstances)
  end.

(** The value of [filteredInstances] after the filter block, for the
    model's [ec2Instances] and [filter]. *)
Definition filteredInstances (ec2Instances : list Instance)
    (filter : string) : list Instance :=
  if String.eqb filter ""
  then ec2Instances
  else if strings.Contains filter "="
       then
         let parts := strings.SplitN_2 filter "=" in
         let tagKey := nth 0 parts "" in
         let tagValue := nth 1 parts "" in
         tagFilterLoop tagKey tagValue ec2Instances []
       else stateFilterLoop filter ec2Instances [].

End Filter.

(** ASCII lower-casing, which is what [strings.ToLower] does on a
    string of ASCII bytes; used to run the filter on examples. *)
Definition lowerByte (c : ascii) : ascii :=
  let n := nat_of_ascii c in
  if (65 <=? n)%nat && (n <=? 90)%nat then ascii_of_nat (n + 32) else c.

Fixpoint asciiToLower (s : string) : string :=
  match s with
  | EmptyString => EmptyString
  | String c s' => String (lowerByte c) (asciiToLower s')
  end.

(** ** The bubbles text input, as [main.go] uses it *)

Open Scope Z_scope.

Module utf8.

(** One byte, from its value. *)
Definition byte (z : Z) : ascii := ascii_of_N (Z.to_N (Z.land z 255)).

(** The UTF-8 encoding of one rune; a rune that is no Unicode scalar
    value is encoded as U+FFFD, as Go's [string(r)] does. *)
Definition EncodeRune (r : Z) : string :=
  if (r <? 0) || (1114111 <? r) || ((55296 <=? r) && (r <=? 57343)) then
    String (byte 239) (String (byte 191) (String (byte 189) EmptyString))
  else if r <=? 127 then
    String (byte r) EmptyString
  else if r <=? 2047 then
    String (byte (Z.lor 192 (Z.shiftr r 6)))
      (String (byte (Z.lor 128 (Z.land r 63))) EmptyString)
  else if r <=? 65535 then
    String (byte (Z.lor 224 (Z.shiftr r 12)))
      (String (byte (Z.lor 128 (Z.land (Z.shiftr r 6) 63)))
         (String (byte (Z.lor 128 (Z.land r 63))) EmptyString))
  else
    String (byte (Z.lor 240 (Z.shiftr r 18)))
      (String (byte (Z.lor 128 (Z.land (Z.shiftr r 12) 63)))
         (String (byte (Z.lor 128 (Z.land (Z.shiftr r 6) 63)))
            (String (byte (Z.lor 128 (Z.land r 63))) EmptyString))).

(** Go's conversion [string(rs)] of a rune slice. *)
Fixpoint string_of_runes (rs : list Z) : string :=
  match rs with
  | [] => EmptyString
  | r :: rest => EncodeRune r ++ string_of_runes rest
  end.

End utf8.

Module textinput.

(** The widget's state: the exported fields [main.go] sets and the
    private rune buffer, focus flag and cursor position. *)
Record Model := {
  Placeholder : string;
  CharLimit : Z;
  Width : Z;
  value : list Z;
  focus : bool;
  pos : Z
}.

(** [textinput.New()]: an empty, unfocused input without limit. *)
Definition New : Model :=
  {| Placeholder := ""; CharLimit := 0; Width := 0;
     value := []; focus := false; pos := 0 |}.

Definition set_Placeholder (p : string) (m : Model) : Model :=
  {| Placeholder := p; CharLimit := CharLimit m; Width := Width m;
     value := value m; focus := focus m; pos := pos m |}.

Definition set_CharLimit (n : Z) (m : Model) : Model :=
  {| Placeholder := Placeholder m; CharLimit := n; Width := Width m;
     value := value m; focus := focus m; pos := pos m |}.

Definition set_Width (n : Z) (m : Model) : Model :=
  {| Placeholder := Placeholder m; CharLimit := CharLimit m; Width := n;
     value := value m; focus := focus m; pos := pos m |}.

(** [m.Focus()]: the input takes the keyboard. *)
Definition Focus (m : Model) : Model :=
  {| Placeholder := Placeholder m; CharLimit := CharLimit m;
     Width := Width m; value := value m; focus := true; pos := pos m |}.

(** [m.Value()]: the buffer as a string. *)
Definition Value (m : Model) : string := utf8.string_of_runes (value m).

End textinput.

(** ** The model, its messages and its commands *)

(** [type screen int] and its three constants. *)
Definition screen := Z.
Definition ec2Screen : screen := 0.
Definition s3Screen : screen := 1.
Definition eksScreen : screen := 2.

(** A Go [error]: [nil], or an error with its message. *)
Definition error := option string.

Record model := {
  currentScreen : screen;
  width : Z;
  height : Z;
  awsClient : option Client;
  ec2Instances : list Instance;
  loading : bool;
  err : error;
  config : Config;
  filterInput : textinput.Model;
  filtering : bool;
  filter : string
}.

(** The messages [Update] distinguishes.  A key press is identified by
    what [msg.String()] returns for it; [OtherMsg] stands for every
    message type [Update] has no case for. *)
Inductive Msg :=
| ClientMsg (client : Client)
| instancesLoadedMsg (instances : list Instance) (err : error)
| KeyMsg (key : string)
| WindowSizeMsg (Width Height : Z)
| OtherMsg (tag : nat).

(** The commands [Update] returns.  [initAWSClient] and
    [loadEC2Instances] are method values, bound to the model they were
    taken from; [inputCmd] is a command of the text input, opaque here. *)
Inductive Cmd :=
| nilCmd
| Quit
| initAWSClient (m : model)
| loadEC2Instances (m : model)
| inputCmd (tag : nat).

Definition set_currentScreen (v : screen) (m : model) : model :=
  {| currentScreen := v; width := width m; height := height m;
     awsClient := awsClient m; ec2Instances := ec2Instances m;
     loading := loading m; err := err m; config := config m;
     filterInput := filterInput m; filtering := filtering m;
     filter := filter m |}.

Definition set_size (w h : Z) (m : model) : model :=
  {| currentScreen := currentScreen m; width := w; height := h;
     awsClient := awsClient m; ec2Instances := ec2Instances m;
     loading := loading m; err := err m; config := config m;
     filterInput := filterInput m; filtering := filtering m;
     filter := filter m |}.

Definition set_awsClient (v : option Client) (m : model) : model :=
  {| currentScreen := currentScreen m; width := width m; height := height m;
     awsClient := v; ec2Instances := ec2Instances m;
     loading := loading m; err := err m; config := config m;
     filterInput := filterInput m; filtering := filtering m;
     filter := filter m |}.

Definition set_ec2Instances (v : list Instance) (m : model) : model :=
  {| currentScreen := currentScreen m; width := width m; height := height m;
     awsClient := awsClient m; ec2Instances := v;
     loading := loading m; err := err m; config := config m;
     filterInput := filterInput m; filtering := filtering m;
     filter := filter m |}.

Definition set_loading (v : bool) (m : model) : model :=
  {| currentScreen := currentScreen m; width := width m; height := height m;
     awsClient := awsClient m; ec2Instances := ec2Instances m;
     loading := v; err := err m; config := config m;
     filterInput := filterInput m; filtering := filtering m;
     filter := filter m |}.

Definition set_err (v : error) (m : model) : model :=
  {| currentScreen := currentScreen m; width := width m; height := height m;
     awsClient := awsClient m; ec2Instances := ec2Instances m;
     loading := loading m; err := v; config := config m;
     filterInput := filterInput m; filtering := filtering m;
     filter := filter m |}.

Definition set_config (v : Config) (m : model) : model :=
  {| currentScreen := currentScreen m; width := width m; height := height m;
     awsClient := awsClient m; ec2Instances := ec2Instances m;
     loading := loading m; err := err m; config := v;
     filterInput := filterInput m; filtering := filtering m;
     filter := filter m |}.

Definition set_filterInput (v : textinput.Model) (m : model) : model :=
  {| currentScreen := currentScreen m; width := width m; height := height m;
     awsClient := awsClient m; ec2Instances := ec2Instances m;
     loading := loading m; err := err m; config := config m;
     filterInput := v; filtering := filtering m;
     filter := filter m |}.

Definition set_filtering (v : bool) (m : model) : model :=
  {| currentScreen := currentScreen m; width := width m; height := height m;
     awsClient := awsClient m; ec2Instances := ec2Instances m;
     loading := loading m; err := err m; config := config m;
     filterInput := filterInput m; filtering := v;
     filter := filter m |}.

Definition set_filter (v : string) (m : model) : model :=
  {| currentScreen := currentScreen m; width := width m; height := height m;
     awsClient := awsClient m; ec2Instances := ec2Instances m;
     loading := loading m; err := err m; config := config m;
     filterInput := filterInput m; filtering := filtering m;
     filter := v |}.

(** [initialModel cfg].  The model keeps a pointer to the one [Config]
    that [main] loaded; the record holds that object, and a write
    through the pointer is a write to this field. *)
Definition initialModel (cfg : Config) : model :=
  let ti := textinput.New in
  let ti := textinput.set_Placeholder "tag:key=value" ti in
  let ti := textinput.Focus ti in
  let ti := textinput.set_CharLimit 20 ti in
  let ti := textinput.set_Width 20 ti in
  {| currentScreen := ec2Screen; width := 0; height := 0;
     awsClient := None; ec2Instances := []; loading := true; err := None;
     config := cfg; filterInput := ti; filtering := false; filter := "" |}.

(** Go's signed 64-bit [int] arithmetic wraps around. *)
Definition wrap64 (z : Z) : Z :=
  (z + 9223372036854775808) mod 18446744073709551616 - 9223372036854775808.

(** The search loop of key [c]: the index of the first region equal to
    the current one, or the initial [-1]. *)
Fixpoint regionLoop (regions : list string) (region : string)
    (i : Z) (currentIndex : Z) : Z :=
  match regions with
  | [] => currentIndex
  | r :: rest =>
      if String.eqb r region then i
      else regionLoop rest region (i + 1) currentIndex
  end.

(** The load status of the specification, read off the model in the
    order in which [renderEC2] tests [m.loading] and [m.err]. *)
Inductive LoadStatus :=
| Loading
| Ready
| Failed (e : string).

Definition loadStatus (m : model) : LoadStatus :=
  if loading m then Loading
  else match err m with
       | Some e => Failed e
       | None => Ready
       end.

(** How the program ends or goes on. *)
Inductive Outcome :=
| Running (m : model)
| Exited (code : Z) (m : model).

Section Program.

(** [textinput.Model.Update] of the bubbles library: the new input and
    the command it asks for, if any. *)
Variable input_Update : textinput.Model -> Msg -> textinput.Model * option nat.

Definition cmd_of_input (c : option nat) : Cmd :=
  match c with
  | None => nilCmd
  | Some tag => inputCmd tag
  end.

(** The tail of the [if m.filtering] block: the message goes to the
    text input and [Update] returns. *)
Definition forwardToInput (m : model) (msg : Msg) : model * Cmd :=
  let (ti, cmd) := input_Update (filterInput m) msg in
  (set_filterInput ti m, cmd_of_input cmd).

(** Key [c]: find the current region, then move to the next one.  An
    index into a slice is below the slice's length, so [currentIndex + 1]
    cannot overflow and is written without wrap-around. *)
Definition cycleRegion (m : model) : model * Cmd :=
  let currentIndex :=
    regionLoop (Regions (config m)) (Region (config m)) 0 (-1) in
  if negb (currentIndex =? -1) then
    let nextIndex :=
      Z.rem (currentIndex + 1) (Z.of_nat (length (Regions (config m)))) in
    let m := set_config
               {| Region := nth (Z.to_nat nextIndex) (Regions (config m)) "";
                  Regions := Regions (config m) |} m in
    let m := set_loading true m in
    (m, initAWSClient m)
  else (m, nilCmd).

(** [func (m model) Update(msg tea.Msg) (tea.Model, tea.Cmd)]. *)
Definition Update (m : model) (msg : Msg) : model * Cmd :=
  if filtering m then
    match msg with
    | KeyMsg key =>
        if String.eqb key "enter" then
          let m := set_filter (textinput.Value (filterInput m)) m in
          let m := set_filtering false m in
          (m, nilCmd)
        else if String.eqb key "esc" then
          let m := set_filtering false m in
          (m, nilCmd)
        else forwardToInput m msg
    | _ => forwardToInput m msg
    end
  else
    match msg with
    | ClientMsg client =>
        let m := set_awsClient (Some client) m in
        (m, loadEC2Instances m)
    | instancesLoadedMsg instances e =>
        let m := set_loading false m in
        let m := set_err e m in
        let m := match e with
                 | None => set_ec2Instances instances m
                 | Some _ => m
                 end in
        (m, nilCmd)
    | KeyMsg key =>
        if String.eqb key "ctrl+c" || String.eqb key "q" then (m, Quit)
        else if String.eqb key "1" then
          (set_currentScreen ec2Screen m, nilCmd)
        else if String.eqb key "2" then
          (set_currentScreen s3Screen m, nilCmd)
        else if String.eqb key "3" then
          (set_currentScreen eksScreen m, nilCmd)
        else if String.eqb key "c" then cycleRegion m
        else if String.eqb key "tab" then
          (set_currentScreen (Z.rem (wrap64 (currentScreen m + 1)) 3) m,
           nilCmd)
        else if String.eqb key "r" then
          if currentScreen m =? ec2Screen then
            let m := set_loading true m in
            (m, loadEC2Instances m)
          else (m, nilCmd)
        else if String.eqb key "f" then
          let m := set_filtering true m in
          let m := set_filterInput (textinput.Focus (filterInput m)) m in
          (m, nilCmd)
        else (m, nilCmd)
    | WindowSizeMsg w h => (set_size w h m, nilCmd)
    | OtherMsg _ => (m, nilCmd)
    end.

(** The model after one message. *)
Definition step (m : model) (msg : Msg) : model := fst (Update m msg).

(** The model after a sequence of messages, in arrival order. *)
Definition steps (m : model) (msgs : list Msg) : model :=
  fold_left step msgs m.

(** The states the program can be in: [initialModel cfg], and whatever
    [Update] makes of a state it can be in. *)
Inductive reachable (cfg : Config) : model -> Prop :=
| reach_init : reachable cfg (initialModel cfg)
| reach_step : forall m msg,
    reachable cfg m -> reachable cfg (step m msg).

(** [p.Run()] and the end of [main]: messages are handled one at a time;
    once [Update] returns [tea.Quit] the loop ends without error and
    [main] returns, which is exit code 0. *)
Fixpoint run (m : model) (msgs : list Msg) : Outcome :=
  match msgs with
  | [] => Running m
  | msg :: rest =>
      let (m', cmd) := Update m msg in
      match cmd with
      | Quit => Exited 0 m'
      | _ => run m' rest
      end
  end.

(** What the specification calls applying a load completion: the
    [instancesLoadedMsg] case of [Update]. *)
Definition applyLoad (m : model) (instances : list Instance) (e : error)
    : model :=
  let m := set_loading false m in
  let m := set_err e m in
  match e with
  | None => set_ec2Instances instances m
  | Some _ => m
  end.

End Program.

(** What the content area shows on the EC2 screen, without styling. *)
Inductive EC2View :=
| LoadingView
| ErrorView (message : string)
| NoInstancesView
| TableView (rows : list Instance).

Section Render.

Variable ToLower : string -> string.

(** [renderEC2], up to layout. *)
Definition renderEC2 (m : model) : EC2View :=
  if loading m then LoadingView
  else match err m with
       | Some e => ErrorView e
       | None =>
           match filteredInstances ToLower (ec2Instances m) (filter m) with
           | [] => NoInstancesView
           | rows => TableView rows
           end
       end.

End Render.

(** A small line editor in the place of the bubbles text input, to run
    the program on concrete messages: a one-byte ASCII key is appended
    unless the limit is reached, [backspace] removes the last rune, and
    nothing happens without focus. *)
Definition lineEdit (ti : textinput.Model) (msg : Msg)
    : textinput.Model * option nat :=
  let put (v : list Z) :=
    {| textinput.Placeholder := textinput.Placeholder ti;
       textinput.CharLimit := textinput.CharLimit ti;
       textinput.Width := textinput.Width ti;
       textinput.value := v;
       textinput.focus := textinput.focus ti;
       textinput.pos := Z.of_nat (length v) |} in
  if negb (textinput.focus ti) then (ti, None)
  else match msg with
       | KeyMsg key =>
           if String.eqb key "backspace" then
             (put (removelast (textinput.value ti)), None)
           else match key with
                | String c EmptyString =>
                    if (0 <? textinput.CharLimit ti) &&
                       (textinput.CharLimit ti <=?
                          Z.of_nat (length (textinput.value ti)))
                    then (ti, None)
                    else if (128 <=? Z.of_N (N_of_ascii c)) then (ti, None)
                    else
                      (put (textinput.value ti
                              ++ [Z.of_N (N_of_ascii c)])%list,
                       None)
                | _ => (ti, None)
                end
       | _ => (ti, None)
       end.

(** ** The revision without region cycling or filter *)

Module Part000.

Record model := {
  currentScreen : screen;
  width : Z;
  height : Z;
  awsClient : option Client;
  ec2Instances : list Instance;
  loading : bool;
  err : error
}.

(** [loadEC2Instances] is a package-level function here. *)
Inductive Cmd :=
| nilCmd
| Quit
| loadEC2Instances.

Definition initialModel : model :=
  {| currentScreen := ec2Screen; width := 0; height := 0;
     awsClient := None; ec2Instances := []; loading := true; err := None |}.

Definition Update (m : model) (msg : Msg) : model * Cmd :=
  match msg with
  | ClientMsg client =>
      ({| currentScreen := currentScreen m; width := width m;
          height := height m; awsClient := Some client;
          ec2Instances := ec2Instances m; loading := loading m;
          err := err m |}, nilCmd)
  | instancesLoadedMsg instances e =>
      ({| currentScreen := currentScreen m; width := width m;
          height := height m; awsClient := awsClient m;
          ec2Instances := match e with
                          | None => instances
                          | Some _ => ec2Instances m
                          end;
          loading := false; err := e |}, nilCmd)
  | KeyMsg key =>
      if String.eqb key "ctrl+c" || String.eqb key "q" then (m, Quit)
      else
        let screenTo (v : screen) :=
          ({| currentScreen := v; width := width m; height := height m;
              awsClient := awsClient m; ec2Instances := ec2Instances m;
              loading := loading m; err := err m |}, nilCmd) in
        if String.eqb key "1" then screenTo ec2Screen
        else if String.eqb key "2" then screenTo s3Screen
        else if String.eqb key "3" then screenTo eksScreen
        else if String.eqb key "tab" then
          screenTo (Z.rem (wrap64 (currentScreen m + 1)) 3)
        else if String.eqb key "r" then
          if currentScreen m =? ec2Screen then
            ({| currentScreen := currentScreen m; width := width m;
                height := height m; awsClient := awsClient m;
                ec2Instances := ec2Instances m; loading := true;
                err := err m |}, loadEC2Instances)
          else (m, nilCmd)
        else (m, nilCmd)
  | WindowSizeMsg w h =>
      ({| currentScreen := currentScreen m; width := w; height := h;
          awsClient := awsClient m; ec2Instances := ec2Instances m;
          loading := loading m; err := err m |}, nilCmd)
  | OtherMsg _ => (m, nilCmd)
  end.

Definition loadStatus (m : model) : LoadStatus :=
  if loading m then Loading
  else match err m with
       | Some e => Failed e
       | None => Ready
       end.

End Part000.

(** ** Definitions that follow the specification's words *)

(** [index_of current regions]: the position of the first occurrence. *)
Fixpoint index_of (current : string) (regions : list string) : option nat :=
  match regions with
  | [] => None
  | r :: rest =>
      if String.eqb r current then Some O
      else option_map S (index_of current rest)
  end.

(** An instance has a tag with key [key] whose value contains [value]
    when case is ignored. *)
Definition hasTag (ToLower : string -> string) (key value : string)
    (inst : Instance) : bool :=
  existsb (fun tag =>
             String.eqb (Key tag) key &&
             strings.Contains (ToLower (Value tag)) (ToLower value))
          (Tags inst).

(** A state string contains [text] when case is ignored. *)
Definition stateContains (ToLower : string -> string) (text : string)
    (state : string) : bool :=
  strings.Contains (ToLower state) (ToLower text).

(** A message that is neither [enter] nor [esc]. *)
Definition keepsEditing (msg : Msg) : bool :=
  match msg with
  | KeyMsg key => negb (String.eqb key "enter" || String.eqb key "esc")
  | _ => true
  end.

(** The text input honours its [CharLimit]: with a positive limit that
    the buffer respects, [Update] keeps the limit and a buffer within it. *)
Definition honoursCharLimit
    (input_Update : textinput.Model -> Msg -> textinput.Model * option nat)
    : Prop :=
  forall ti msg,
    0 < textinput.CharLimit ti ->
    Z.of_nat (length (textinput.value ti)) <= textinput.CharLimit ti ->
    textinput.CharLimit (fst (input_Update ti msg)) = textinput.CharLimit ti /\
    Z.of_nat (length (textinput.value (fst (input_Update ti msg))))
      <= textinput.CharLimit ti.

(** The limit of 20 holds in a model: the text input has it, its
    buffer is within it, and the filter text is the encoding of at most
    20 runes. *)
Definition withinCharLimit (m : model) : Prop :=
  textinput.CharLimit (filterInput m) = 20 /\
  (length (textinput.value (filterInput m)) <= 20)%nat /\
  exists rs, filter m = utf8.string_of_runes rs /\ (length rs <= 20)%nat.

(** ** Sample data *)

Definition sampleConfig : Config :=
  {| Region := "eu-west-1";
     Regions := ["us-east-1"; "us-west-2"; "eu-west-1"] |}.

Definition sampleInstance (id state : string) (tags : list Tag) : Instance :=
  {| ID := id; Name := ""; State := state; InstanceType := "t3.micro";
     PublicIP := ""; PrivateIP := ""; Tags := tags |}.

Definition prodInstance : Instance :=
  sampleInstance "i-1" "Running" [{| Key := "Env"; Value := "Prod" |}].

Definition devInstance : Instance :=
  sampleInstance "i-2" "stopped" [{| Key := "env"; Value := "dev" |}].

Definition sampleOld : Part000.model := Part000.initialModel.

(** The start state, and the states after [f] and after [2], [f]. *)
Definition startState : model := initialModel sampleConfig.

Definition editingState : model :=
  steps lineEdit startState [KeyMsg "f"].

Definition editingOnS3 : model :=
  steps lineEdit startState [KeyMsg "2"; KeyMsg "f"].

(** ** The table of [renderEC2] and the frame of [View] *)

(** [truncate s max].  A slice expression whose bound is negative or
    beyond the string panics; [None] is that panic. *)
Definition truncate (s : string) (max : Z) : option string :=
  if Z.of_nat (String.length s) <=? max then Some s
  else
    let hi := wrap64 (max - 3) in
    if (hi <? 0) || (Z.of_nat (String.length s) <? hi) then None
    else Some (String.substring 0 (Z.to_nat hi) s ++ "...").

(** [getStateStyle state], as the colour code of the style. *)
Definition getStateStyle (state : string) : string :=
  if String.eqb state "running" then "2"
  else if String.eqb state "stopped" then "3"
  else if String.eqb state "terminated" || String.eqb state "terminating"
  then "1"
  else if String.eqb state "pending" || String.eqb state "stopping"
  then "4"
  else "8".

(** One line of the table: the five arguments of the row's [Sprintf],
    the state with the colour it is drawn in. *)
Record Row := {
  rowID : string;
  rowName : string;
  rowState : string;
  rowColor : string;
  rowType : string;
  rowIP : string
}.

(** The body of the row loop; [dash] is the grey rendering of ["-"]. *)
Definition rowOf (dash : string) (inst : Instance) : option Row :=
  let stateStyle := getStateStyle (State inst) in
  let name := Name inst in
  let name := if String.eqb name "" then dash else name in
  let ip := PublicIP inst in
  let ip := if String.eqb ip "" then PrivateIP inst else ip in
  let ip := if String.eqb ip "" then "-" else ip in
  match truncate name 30 with
  | Some cell =>
      Some {| rowID := ID inst; rowName := cell; rowState := State inst;
              rowColor := stateStyle; rowType := InstanceType inst;
              rowIP := ip |}
  | None => None
  end.

(** The row loop over the filtered instances. *)
Fixpoint tableRows (dash : string) (insts : list Instance)
    : option (list Row) :=
  match insts with
  | [] => Some []
  | inst :: rest =>
      match rowOf dash inst with
      | Some row =>
          match tableRows dash rest with
          | Some rows => Some (row :: rows)
          | None => None
          end
      | None => None
      end
  end.

(** The content area of [View]. *)
Inductive Panel :=
| EC2Panel (v : EC2View)
| S3Panel
| EKSPanel
| EmptyPanel.

(** What [View] draws, without styling: which tabs are drawn active,
    the region label, the filter input when it is shown, the content. *)
Record Frame := {
  ec2Tab : bool;
  s3Tab : bool;
  eksTab : bool;
  regionInfo : option string;
  filterLine : option textinput.Model;
  content : Panel
}.

(** [View], up to styling.  Both [switch] statements have no default:
    a screen value other than the three constants activates no tab and
    leaves the content empty. *)
Definition View (ToLower : string -> string) (m : model) : Frame :=
  {| ec2Tab := currentScreen m =? ec2Screen;
     s3Tab := currentScreen m =? s3Screen;
     eksTab := currentScreen m =? eksScreen;
     regionInfo := match awsClient m with
                   | Some client => Some (GetRegion client)
                   | None => None
                   end;
     filterLine := if filtering m then Some (filterInput m) else None;
     content :=
       if currentScreen m =? ec2Screen then EC2Panel (renderEC2 ToLower m)
       else if currentScreen m =? s3Screen then S3Panel
       else if currentScreen m =? eksScreen then EKSPanel
       else EmptyPanel |}.

(** A screen value is one of the three constants. *)
Definition screenInRange (s : screen) : Prop :=
  s = ec2Screen \/ s = s3Screen \/ s = eksScreen.

(** ** The two revisions side by side *)

(** The fields the older model has, read off the newer one. *)
Definition toPart000 (m : model) : Part000.model :=
  {| Part000.currentScreen := currentScreen m;
     Part000.width := width m;
     Part000.height := height m;
     Part000.awsClient := awsClient m;
     Part000.ec2Instances := ec2Instances m;
     Part000.loading := loading m;
     Part000.err := err m |}.

(** The older revision's states. *)
Inductive reachable000 : Part000.model -> Prop :=
| reach000_init : reachable000 Part000.initialModel
| reach000_step : forall m msg,
    reachable000 m -> reachable000 (fst (Part000.Update m msg)).

(** The state after [f] and one typed key, and a state with a failed
    load. *)
Definition typedState : model :=
  steps lineEdit startState [KeyMsg "f"; KeyMsg "E"].

(** The state after [f] and the three keys [E], [n], [v]. *)
Definition envTypedState : model :=
  steps lineEdit startState [KeyMsg "f"; KeyMsg "E"; KeyMsg "n"; KeyMsg "v"].

Definition failedState : model :=
  steps lineEdit startState [instancesLoadedMsg [] (Some "AccessDenied")].

(** The older model after a sequence of messages. *)
Definition steps000 (m : Part000.model) (msgs : list Msg) : Part000.model :=
  fold_left (fun acc msg => fst (Part000.Update acc msg)) msgs m.

(** * Properties *)

(** ** Splitting at the first [=] *)

Lemma HasPrefix_eq_sign (s : string) :
  strings.HasPrefix s "=" = true <-> exists t, s = String "="%char t.
Proof.
  unfold strings.HasPrefix. destruct s as [|c t]; cbn [String.prefix].
  - split; [discriminate | intros [t H]; discriminate].
  - destruct (Ascii.ascii_dec "="%char c) as [E|Hne].
    + rewrite <- E. destruct t; split; eauto.
    + split; [discriminate | intros [t' H]; congruence].
Qed.

Lemma HasPrefix_eq_sign_false (c : ascii) (t : string) :
  c <> "="%char -> strings.HasPrefix (String c t) "=" = false.
Proof.
  intros Hne. destruct (strings.HasPrefix (String c t) "=") eqn:E; trivial.
  apply HasPrefix_eq_sign in E. destruct E as [t' E]. congruence.
Qed.

Lemma cut_cons (c : ascii) (t sep : string) :
  strings.cut (String c t) sep =
  if strings.HasPrefix (String c t) sep
  then Some (EmptyString, strings.skip (String.length sep) (String c t))
  else match strings.cut t sep with
       | Some (before, after) => Some (String c before, after)
       | None => None
       end.
Proof. reflexivity. Qed.

Lemma Contains_cons (c : ascii) (t substr : string) :
  strings.Contains (String c t) substr =
  strings.HasPrefix (String c t) substr || strings.Contains t substr.
Proof. reflexivity. Qed.

Lemma HasPrefix_eq_sign_head (t : string) :
  strings.HasPrefix (String "="%char t) "=" = true.
Proof. apply HasPrefix_eq_sign. eauto. Qed.

Lemma cut_eq_sign_found (s before after : string) :
  strings.cut s "=" = Some (before, after) ->
  s = before ++ String "="%char after /\
  strings.Contains before "=" = false.
Proof.
  revert before after. induction s as [|c t IH]; intros before after.
  - cbn. discriminate.
  - rewrite cut_cons.
    destruct (strings.HasPrefix (String c t) "=") eqn:E.
    + apply HasPrefix_eq_sign in E. destruct E as [t' E].
      injection E as Hc Ht. subst c t'. cbn [String.length strings.skip].
      intros H. injection H as Hb Ha. subst before after.
      split; reflexivity.
    + destruct (strings.cut t "=") as [[b a]|] eqn:Ec; [|discriminate].
      intros H. injection H as Hb Ha. subst before after.
      destruct (IH b a eq_refl) as [Ht Hb]. subst t.
      split; [reflexivity|].
      rewrite Contains_cons, Hb, orb_false_r.
      destruct (Ascii.ascii_dec c "="%char) as [Hc|Hne].
      * subst c. rewrite HasPrefix_eq_sign_head in E. discriminate.
      * now apply HasPrefix_eq_sign_false.
Qed.

Lemma Contains_eq_sign_cut (s : string) :
  strings.Contains s "=" = true ->
  exists before after, strings.cut s "=" = Some (before, after).
Proof.
  induction s as [|c t IH].
  - cbn. discriminate.
  - rewrite Contains_cons, cut_cons.
    destruct (strings.HasPrefix (String c t) "=") eqn:E.
    + intros _. eauto.
    + cbn [orb]. intros H. destruct (IH H) as (b & a & Hcut).
      rewrite Hcut. eauto.
Qed.

Lemma cut_eq_sign_first (key value : string) :
  strings.Contains key "=" = false ->
  strings.cut (key ++ String "="%char value) "=" = Some (key, value).
Proof.
  induction key as [|c t IH]; intros Hk.
  - change ("" ++ String "="%char value) with (String "="%char value).
    rewrite cut_cons, HasPrefix_eq_sign_head. reflexivity.
  - rewrite Contains_cons in Hk. apply orb_false_iff in Hk.
    destruct Hk as [Hp Hc].
    change (String c t ++ String "="%char value)
      with (String c (t ++ String "="%char value)).
    rewrite cut_cons.
    assert (strings.HasPrefix (String c (t ++ String "="%char value)) "="
            = false) as Hn.
    { destruct (Ascii.ascii_dec c "="%char) as [Heq|Hne].
      - subst c. rewrite HasPrefix_eq_sign_head in Hp. discriminate.
      - now apply HasPrefix_eq_sign_false. }
    rewrite Hn, (IH Hc). reflexivity.
Qed.

(** ** The filter loops as list filters *)

Section FilterFacts.

Variable ToLower : string -> string.

Lemma tagLoop_existsb (k v : string) (inst : Instance) (tags : list Tag)
    (acc : list Instance) :
  tagLoop ToLower k v inst tags acc =
  (acc ++ (if existsb (tagMatches ToLower k v) tags then [inst] else []))%list.
Proof.
  induction tags as [|tag rest IH]; simpl.
  - now rewrite app_nil_r.
  - destruct (tagMatches ToLower k v tag); simpl; [reflexivity | exact IH].
Qed.

Lemma tagFilterLoop_filter (k v : string) (insts acc : list Instance) :
  tagFilterLoop ToLower k v insts acc =
  (acc ++ List.filter (hasTag ToLower k v) insts)%list.
Proof.
  revert acc. induction insts as [|inst rest IH]; intros acc; simpl.
  - now rewrite app_nil_r.
  - rewrite IH, tagLoop_existsb. unfold hasTag at 2.
    fold (tagMatches ToLower k v).
    destruct (existsb (tagMatches ToLower k v) (Tags inst)).
    + now rewrite <- app_assoc.
    + now rewrite app_nil_r.
Qed.

Lemma stateFilterLoop_filter (text : string) (insts acc : list Instance) :
  stateFilterLoop ToLower text insts acc =
  (acc ++ List.filter (fun inst => stateContains ToLower text (State inst))
            insts)%list.
Proof.
  revert acc. induction insts as [|inst rest IH]; intros acc; simpl.
  - now rewrite app_nil_r.
  - rewrite IH. unfold stateMatches, stateContains.
    destruct (strings.Contains (ToLower (State inst)) (ToLower text)).
    + now rewrite <- app_assoc.
    + reflexivity.
Qed.

(** C3: a filter text with an [=] selects, in order and once each, the
    instances that have a tag whose key is the text before the first
    [=], compared exactly, and whose value contains the text after it
    when both are lower-cased; later [=] signs belong to the value, and
    tags after a matching one do not change the outcome. *)
Theorem tag_filter_selects (insts : list Instance) (filterText : string) :
  strings.Contains filterText "=" = true ->
  exists key value,
    filterText = key ++ "=" ++ value /\
    strings.Contains key "=" = false /\
    filteredInstances ToLower insts filterText =
      List.filter (hasTag ToLower key value) insts /\
    (forall inst before tag after acc,
        tagMatches ToLower key value tag = true ->
        tagLoop ToLower key value inst (before ++ tag :: after)%list acc =
        tagLoop ToLower key value inst (before ++ [tag])%list acc).
Proof.
  intros Hc.
  destruct (Contains_eq_sign_cut _ Hc) as (key & value & Hcut).
  destruct (cut_eq_sign_found _ _ _ Hcut) as [Hs Hk].
  exists key, value. split; [exact Hs|]. split; [exact Hk|]. split.
  - unfold filteredInstances. rewrite Hc.
    destruct (String.eqb filterText "") eqn:E.
    + apply String.eqb_eq in E. rewrite E in Hc. cbn in Hc. discriminate Hc.
    + unfold strings.SplitN_2. rewrite Hcut. simpl nth.
      now rewrite tagFilterLoop_filter.
  - intros inst before tag after acc Ht.
    rewrite !tagLoop_existsb, !existsb_app. simpl. rewrite Ht.
    now rewrite !orb_true_r.
Qed.

(** C4: a non-empty filter text without [=] selects, in order, the
    instances whose state contains the text when both are lower-cased;
    the choice is a function of the state field alone. *)
Theorem state_filter_selects (insts : list Instance) (filterText : string) :
  filterText <> "" ->
  strings.Contains filterText "=" = false ->
  filteredInstances ToLower insts filterText =
  List.filter (fun inst => stateContains ToLower filterText (State inst))
    insts.
Proof.
  intros Hne Hc. unfold filteredInstances. rewrite Hc.
  destruct (String.eqb filterText "") eqn:E.
  - apply String.eqb_eq in E. contradiction.
  - now rewrite stateFilterLoop_filter.
Qed.

(** C5: with the empty filter text the instances are shown as they
    are, in the same order. *)
Theorem empty_filter_identity (insts : list Instance) :
  filteredInstances ToLower insts "" = insts.
Proof. reflexivity. Qed.

End FilterFacts.

Lemma tag_filter_selects_witness :
  strings.Contains "Env=prod" "=" = true /\
  exists key value,
    "Env=prod" = key ++ "=" ++ value /\
    strings.Contains key "=" = false /\
    filteredInstances asciiToLower [prodInstance; devInstance] "Env=prod" =
      List.filter (hasTag asciiToLower key value)
        [prodInstance; devInstance] /\
    (forall inst before tag after acc,
        tagMatches asciiToLower key value tag = true ->
        tagLoop asciiToLower key value inst (before ++ tag :: after)%list acc =
        tagLoop asciiToLower key value inst (before ++ [tag])%list acc).
Proof.
  split; [reflexivity|].
  apply (tag_filter_selects asciiToLower [prodInstance; devInstance]
           "Env=prod").
  reflexivity.
Defined.

Lemma state_filter_selects_witness :
  "run" <> "" /\
  strings.Contains "run" "=" = false /\
  filteredInstances asciiToLower [prodInstance; devInstance] "run" =
  List.filter (fun inst => stateContains asciiToLower "run" (State inst))
    [prodInstance; devInstance].
Proof.
  split; [discriminate|]. split; [reflexivity|].
  apply (state_filter_selects asciiToLower [prodInstance; devInstance] "run");
    [discriminate | reflexivity].
Defined.

(** The specification's examples, run. *)
Example filter_Env_prod :
  filteredInstances asciiToLower [prodInstance; devInstance] "Env=prod"
  = [prodInstance].
Proof. reflexivity. Qed.

Example filter_run :
  filteredInstances asciiToLower [prodInstance; devInstance] "run"
  = [prodInstance].
Proof. reflexivity. Qed.

(** ** The region search *)

Lemma regionLoop_index_of (regions : list string) (region : string) (i : Z) :
  regionLoop regions region i (-1) =
  match index_of region regions with
  | Some k => i + Z.of_nat k
  | None => -1
  end.
Proof.
  revert i. induction regions as [|r rest IH]; intros i; simpl.
  - reflexivity.
  - destruct (String.eqb r region).
    + simpl. lia.
    + rewrite IH. destruct (index_of region rest); simpl; lia.
Qed.

Lemma index_of_lt (current : string) (regions : list string) (k : nat) :
  index_of current regions = Some k -> (k < length regions)%nat.
Proof.
  revert k. induction regions as [|r rest IH]; intros k; simpl.
  - discriminate.
  - destruct (String.eqb r current).
    + intros H. injection H as <-. lia.
    + destruct (index_of current rest) as [j|]; simpl; [|discriminate].
      intros H. injection H as <-. specialize (IH j eq_refl). lia.
Qed.

Lemma index_of_first (current : string) (regions : list string) (k : nat) :
  index_of current regions = Some k ->
  nth k regions "" = current /\
  forall j, (j < k)%nat -> nth j regions "" <> current.
Proof.
  revert k. induction regions as [|r rest IH]; intros k; simpl.
  - discriminate.
  - destruct (String.eqb r current) eqn:E.
    + intros H. injection H as <-. apply String.eqb_eq in E.
      split; [exact E | intros j Hj; lia].
    + destruct (index_of current rest) as [i|]; simpl; [|discriminate].
      intros H. injection H as <-. destruct (IH i eq_refl) as [Hn Hb].
      split; [exact Hn|]. intros [|j] Hj.
      * apply String.eqb_neq. exact E.
      * apply Hb. lia.
Qed.

Lemma index_of_None (current : string) (regions : list string) :
  index_of current regions = None <-> ~ In current regions.
Proof.
  induction regions as [|r rest IH]; simpl.
  - tauto.
  - destruct (String.eqb r current) eqn:E.
    + apply String.eqb_eq in E. split; [discriminate | tauto].
    + apply String.eqb_neq in E.
      destruct (index_of current rest); simpl in *.
      * split; [discriminate|]. intros H. exfalso. apply H. right.
        destruct IH as [_ IH].
        destruct (in_dec string_dec current rest) as [Hin|Hn]; [exact Hin|].
        specialize (IH Hn). discriminate.
      * split; [|reflexivity]. intros _ [H|H]; [contradiction|].
        destruct IH as [IH _]. exact (IH eq_refl H).
Qed.

(** ** The reducer *)

Section StateMachine.

Variable input_Update : textinput.Model -> Msg -> textinput.Model * option nat.

(** Case analysis on the chain of key comparisons. *)
Ltac split_ifs :=
  repeat match goal with
         | |- context [if ?b then _ else _] => destruct b eqn:?
         end.

Lemma Update_navigating_load (m : model) (instances : list Instance)
    (e : error) :
  filtering m = false ->
  Update input_Update m (instancesLoadedMsg instances e) =
  (applyLoad m instances e, nilCmd).
Proof.
  intros Hf. unfold Update, applyLoad. rewrite Hf.
  destruct e; reflexivity.
Qed.

Lemma applyLoad_filtering (m : model) (instances : list Instance) (e : error) :
  filtering (applyLoad m instances e) = filtering m.
Proof. destruct e; reflexivity. Qed.

(** While navigating, load completions take effect one after the other,
    each as [applyLoad] describes. *)
Lemma loads_applied_when_navigating (m : model)
    (loads : list (list Instance * error)) :
  filtering m = false ->
  steps input_Update m
    (map (fun l => instancesLoadedMsg (fst l) (snd l)) loads) =
  fold_left (fun acc l => applyLoad acc (fst l) (snd l)) loads m.
Proof.
  revert m. induction loads as [|[instances e] rest IH]; intros m Hf.
  - reflexivity.
  - unfold steps in *. simpl.
    unfold step at 2. rewrite Update_navigating_load by exact Hf.
    simpl fst. apply IH. now rewrite applyLoad_filtering.
Qed.

(** While the filter is edited, a load completion changes neither
    [loading], nor [err], nor [ec2Instances]. *)
Lemma load_lost_when_filtering (m : model) (instances : list Instance)
    (e : error) :
  filtering m = true ->
  let m' := step input_Update m (instancesLoadedMsg instances e) in
  loading m' = loading m /\ err m' = err m /\
  ec2Instances m' = ec2Instances m.
Proof.
  intros Hf. unfold step, Update. rewrite Hf.
  unfold forwardToInput.
  destruct (input_Update (filterInput m) _) as [ti c]. simpl. auto.
Qed.

(** C2: from [Loading], outside filter editing, a successful load
    gives [Ready] with the loaded instances, and a failed load gives
    [Failed] with its error and the instances as they were; the older
    revision's [Update] does the same. *)
Theorem load_completion_from_loading (m : model) (old : Part000.model) :
  loadStatus m = Loading ->
  filtering m = false ->
  Part000.loadStatus old = Loading ->
  (forall instances,
      let m' := step input_Update m (instancesLoadedMsg instances None) in
      let old' :=
        fst (Part000.Update old (instancesLoadedMsg instances None)) in
      loadStatus m' = Ready /\ ec2Instances m' = instances /\
      Part000.loadStatus old' = Ready /\
      Part000.ec2Instances old' = instances) /\
  (forall instances e,
      let m' := step input_Update m (instancesLoadedMsg instances (Some e)) in
      let old' :=
        fst (Part000.Update old (instancesLoadedMsg instances (Some e))) in
      loadStatus m' = Failed e /\ err m' = Some e /\
      ec2Instances m' = ec2Instances m /\
      Part000.loadStatus old' = Failed e /\ Part000.err old' = Some e /\
      Part000.ec2Instances old' = Part000.ec2Instances old).
Proof.
  intros _ Hf _. split.
  - intros instances. unfold step.
    rewrite Update_navigating_load by exact Hf. simpl. auto.
  - intros instances e. unfold step.
    rewrite Update_navigating_load by exact Hf. simpl. auto 7.
Qed.

Lemma Update_key_c (m : model) :
  filtering m = false -> Update input_Update m (KeyMsg "c") = cycleRegion m.
Proof. intros Hf. unfold Update. rewrite Hf. reflexivity. Qed.

(** C6: outside filter editing, key [c] moves to the region after the
    first occurrence of the current one, wrapping around, sets
    [Loading] and returns the client re-initialisation, whose client
    message makes [Update] return the load; when the current region is
    not in the list, nothing changes. *)
Theorem region_cycle (m : model) :
  filtering m = false ->
  (forall i,
      index_of (Region (config m)) (Regions (config m)) = Some i ->
      let m' := step input_Update m (KeyMsg "c") in
      Region (config m') =
        nth (((i + 1) mod length (Regions (config m)))%nat)
            (Regions (config m)) "" /\
      Regions (config m') = Regions (config m) /\
      loadStatus m' = Loading /\
      snd (Update input_Update m (KeyMsg "c")) = initAWSClient m' /\
      (forall client,
          snd (Update input_Update m' (ClientMsg client)) =
          loadEC2Instances (set_awsClient (Some client) m'))) /\
  (~ In (Region (config m)) (Regions (config m)) ->
   Update input_Update m (KeyMsg "c") = (m, nilCmd)).
Proof.
  intros Hf. split.
  - intros i Hi. unfold step. rewrite Update_key_c by exact Hf.
    unfold cycleRegion. rewrite regionLoop_index_of, Hi.
    pose proof (index_of_lt _ _ _ Hi) as Hlt.
    assert ((0 + Z.of_nat i =? -1) = false) as -> by (apply Z.eqb_neq; lia).
    assert (Z.to_nat (Z.rem (0 + Z.of_nat i + 1)
                        (Z.of_nat (length (Regions (config m))))) =
            ((i + 1) mod length (Regions (config m)))%nat) as ->.
    { rewrite Z.rem_mod_nonneg by lia.
      replace (0 + Z.of_nat i + 1) with (Z.of_nat (i + 1)) by lia.
      rewrite <- Nat2Z.inj_mod. apply Nat2Z.id. }
    cbn [negb fst snd]. repeat split.
    intros client. unfold Update. cbn [set_loading set_config filtering].
    rewrite Hf. reflexivity.
  - intros Hn. rewrite Update_key_c by exact Hf. unfold cycleRegion.
    rewrite regionLoop_index_of.
    apply index_of_None in Hn. rewrite Hn. reflexivity.
Qed.

(** What one message can do to the filter, the text input, the mode
    and the screen. *)
Lemma Update_filtering_forward (m : model) (msg : Msg) :
  filtering m = true ->
  keepsEditing msg = true ->
  Update input_Update m msg = forwardToInput input_Update m msg.
Proof.
  intros Hf Hk. unfold Update. rewrite Hf.
  destruct msg as [c|ins e|key|w h|n]; try reflexivity.
  simpl in Hk. apply negb_true_iff, orb_false_iff in Hk.
  destruct Hk as [-> ->]. reflexivity.
Qed.

Lemma forwardToInput_frame (m : model) (msg : Msg) :
  let m' := fst (forwardToInput input_Update m msg) in
  filtering m' = filtering m /\ filter m' = filter m /\
  currentScreen m' = currentScreen m /\
  filterInput m' = fst (input_Update (filterInput m) msg) /\
  snd (forwardToInput input_Update m msg) <> Quit.
Proof.
  unfold forwardToInput.
  destruct (input_Update (filterInput m) msg) as [ti [tag|]]; simpl;
    repeat split; discriminate.
Qed.

Lemma cycleRegion_frame (m : model) :
  let m' := fst (cycleRegion m) in
  filtering m' = filtering m /\ filter m' = filter m /\
  currentScreen m' = currentScreen m /\ filterInput m' = filterInput m.
Proof. unfold cycleRegion. split_ifs; simpl; auto. Qed.

Lemma step_filtering_screen (m : model) (msg : Msg) :
  filtering m = true ->
  currentScreen (step input_Update m msg) = currentScreen m.
Proof.
  intros Hf. unfold step, Update. rewrite Hf.
  destruct msg as [c|ins e|key|w h|n];
    try apply forwardToInput_frame.
  split_ifs; try reflexivity. apply forwardToInput_frame.
Qed.

Lemma step_enters_filtering (m : model) (msg : Msg) :
  filtering m = false ->
  filtering (step input_Update m msg) = true ->
  msg = KeyMsg "f".
Proof.
  intros Hf. unfold step, Update. rewrite Hf.
  destruct msg as [c|ins e|key|w h|n]; simpl; try congruence.
  - destruct e; simpl; congruence.
  - destruct (String.eqb key "f") eqn:Ef.
    + apply String.eqb_eq in Ef. congruence.
    + pose proof (cycleRegion_frame m) as (Hc & _). simpl in Hc.
      split_ifs; simpl; congruence.
Qed.

(** C7, as the code has it: key [f] enters filter editing from any
    state that is not editing, whatever the screen, and it is the only
    message that does; while the filter is edited the screen stays the
    one on which [f] was pressed. *)
Theorem filter_editing_entry (m e : model) (msg : Msg) :
  filtering m = false ->
  filtering e = true ->
  (filtering (step input_Update m (KeyMsg "f")) = true /\
   currentScreen (step input_Update m (KeyMsg "f")) = currentScreen m) /\
  (filtering (step input_Update m msg) = true -> msg = KeyMsg "f") /\
  currentScreen (step input_Update e msg) = currentScreen e.
Proof.
  intros Hm He. split; [|split].
  - unfold step, Update. rewrite Hm. simpl. auto.
  - now apply step_enters_filtering.
  - now apply step_filtering_screen.
Qed.

Lemma steps_app (m : model) (xs ys : list Msg) :
  steps input_Update m (xs ++ ys) =
  steps input_Update (steps input_Update m xs) ys.
Proof. unfold steps. apply fold_left_app. Qed.

Lemma typing_keeps_filter (m : model) (typed : list Msg) :
  filtering m = true ->
  forallb keepsEditing typed = true ->
  filtering (steps input_Update m typed) = true /\
  filter (steps input_Update m typed) = filter m.
Proof.
  revert m. induction typed as [|msg rest IH]; intros m Hf Hk.
  - split; [exact Hf | reflexivity].
  - simpl in Hk. apply andb_true_iff in Hk. destruct Hk as [Hmsg Hrest].
    unfold steps. simpl.
    fold (steps input_Update (step input_Update m msg) rest).
    pose proof (forwardToInput_frame m msg) as (F1 & F2 & _).
    simpl in F1, F2.
    assert (step input_Update m msg =
            fst (forwardToInput input_Update m msg)) as E
      by (unfold step; now rewrite Update_filtering_forward).
    destruct (IH (step input_Update m msg)) as [I1 I2].
    + rewrite E. congruence.
    + exact Hrest.
    + split; [exact I1|]. rewrite I2, E. exact F2.
Qed.

(** C8, as the code has it: in filter editing, [esc] leaves the mode
    and commits nothing, and the text input keeps what it holds: the
    model is as before but for the mode flag.  So after [f], any
    messages other than [enter] and [esc], and then [esc], the filter
    text is the one from before [f]. *)
Theorem esc_keeps_filter (e m : model) (typed : list Msg) :
  filtering e = true ->
  filtering m = false ->
  forallb keepsEditing typed = true ->
  Update input_Update e (KeyMsg "esc") = (set_filtering false e, nilCmd) /\
  filterInput (step input_Update e (KeyMsg "esc")) = filterInput e /\
  filter (step input_Update e (KeyMsg "esc")) = filter e /\
  filtering (step input_Update e (KeyMsg "esc")) = false /\
  filtering (steps input_Update m (KeyMsg "f" :: typed)) = true /\
  filter (steps input_Update m (KeyMsg "f" :: typed ++ [KeyMsg "esc"]))
    = filter m /\
  filtering (steps input_Update m (KeyMsg "f" :: typed ++ [KeyMsg "esc"]))
    = false.
Proof.
  intros He Hm Hk.
  assert (forall x, filtering x = true ->
            Update input_Update x (KeyMsg "esc") =
            (set_filtering false x, nilCmd))
    as Hesc by (intros x Hx; unfold Update; rewrite Hx; reflexivity).
  split; [now apply Hesc|].
  unfold step at 1 2 3. rewrite (Hesc e He). split; [reflexivity|].
  split; [reflexivity|]. split; [reflexivity|].
  set (m1 := step input_Update m (KeyMsg "f")).
  assert (filtering m1 = true /\ filter m1 = filter m) as [H1 H2]
    by (unfold m1, step, Update; rewrite Hm; simpl; auto).
  destruct (typing_keeps_filter m1 typed H1 Hk) as [T1 T2].
  change (KeyMsg "f" :: typed ++ [KeyMsg "esc"])%list
    with ((KeyMsg "f" :: typed) ++ [KeyMsg "esc"])%list.
  rewrite steps_app.
  change (steps input_Update m (KeyMsg "f" :: typed))
    with (steps input_Update m1 typed).
  split; [exact T1|].
  set (m2 := steps input_Update m1 typed) in *.
  change (steps input_Update m2 [KeyMsg "esc"])
    with (fst (Update input_Update m2 (KeyMsg "esc"))).
  rewrite (Hesc _ T1). simpl. split; [congruence | reflexivity].
Qed.

(** C9, as the code has it: outside filter editing, on any screen and
    with any load status, [q] and [ctrl+c] end the program with exit
    code 0; in filter editing [q] is text for the input and the program
    goes on. *)
Theorem quit_when_navigating (m e : model) (key : string) (rest : list Msg) :
  filtering m = false ->
  filtering e = true ->
  key = "q" \/ key = "ctrl+c" ->
  run input_Update m (KeyMsg key :: rest) = Exited 0 m /\
  Update input_Update e (KeyMsg "q") =
    forwardToInput input_Update e (KeyMsg "q") /\
  snd (Update input_Update e (KeyMsg "q")) <> Quit /\
  filtering (step input_Update e (KeyMsg "q")) = true.
Proof.
  intros Hm He Hkey. split.
  - simpl. unfold Update. rewrite Hm.
    destruct Hkey as [-> | ->]; reflexivity.
  - assert (Update input_Update e (KeyMsg "q") =
            forwardToInput input_Update e (KeyMsg "q")) as E
      by (now apply Update_filtering_forward).
    pose proof (forwardToInput_frame e (KeyMsg "q")) as (F1 & _ & _ & _ & F5).
    simpl in F1. split; [exact E|]. unfold step. rewrite E.
    split; [exact F5 | congruence].
Qed.

Lemma reachable_steps (cfg : Config) (m : model) (msgs : list Msg) :
  reachable input_Update cfg m ->
  reachable input_Update cfg (steps input_Update m msgs).
Proof.
  revert m. induction msgs as [|msg rest IH]; intros m Hm.
  - exact Hm.
  - apply (IH (step input_Update m msg)). now constructor.
Qed.

(** What a step can do to the filter text and to the text input. *)
Lemma step_input_cases (m : model) (msg : Msg) :
  let m' := step input_Update m msg in
  (filter m' = filter m \/ filter m' = textinput.Value (filterInput m)) /\
  (filterInput m' = filterInput m \/
   filterInput m' = textinput.Focus (filterInput m) \/
   filterInput m' = fst (input_Update (filterInput m) msg)).
Proof.
  pose proof (forwardToInput_frame m msg) as (_ & F2 & _ & F4 & _).
  pose proof (cycleRegion_frame m) as (_ & C2 & _ & C4).
  simpl in F2, F4, C2, C4.
  unfold step, Update. destruct (filtering m).
  - destruct msg as [c|ins e|key|w h|n];
      try (split; [left|right; right]; assumption).
    split_ifs; simpl; auto.
  - destruct msg as [c|ins e|key|w h|n]; simpl; auto.
    + destruct e; simpl; auto.
    + split_ifs; simpl; auto.
Qed.

Lemma step_withinCharLimit (m : model) (msg : Msg) :
  honoursCharLimit input_Update ->
  withinCharLimit m -> withinCharLimit (step input_Update m msg).
Proof.
  intros Hc (L & V & rs & Hrs & Hlen).
  pose proof (step_input_cases m msg) as [Hf Hi]. simpl in Hf, Hi.
  unfold withinCharLimit.
  assert (textinput.CharLimit (filterInput (step input_Update m msg)) = 20 /\
          (length (textinput.value (filterInput (step input_Update m msg)))
           <= 20)%nat) as [L' V'].
  { destruct Hi as [-> | [-> | ->]]; simpl; auto.
    destruct (Hc (filterInput m) msg) as [H1 H2]; [lia | lia |].
    rewrite L in H1, H2. split; [exact H1 | lia]. }
  split; [exact L'|]. split; [exact V'|].
  destruct Hf as [-> | ->].
  - exists rs. auto.
  - exists (textinput.value (filterInput m)). auto.
Qed.

(** C10: with a text input that honours its [CharLimit], every
    reachable state has the limit 20 on the input, a buffer of at most
    20 runes and a filter text that encodes at most 20 runes. *)
Theorem filter_within_char_limit (cfg : Config) (m : model) :
  honoursCharLimit input_Update ->
  reachable input_Update cfg m ->
  withinCharLimit m.
Proof.
  intros Hc Hr. induction Hr as [|m msg Hr IH].
  - unfold withinCharLimit. simpl. split; [reflexivity|].
    split; [lia|]. exists []. split; [reflexivity | simpl; lia].
  - now apply step_withinCharLimit.
Qed.

End StateMachine.

(** ** The line editor honours the limit *)

Lemma lineEdit_honours_limit : honoursCharLimit lineEdit.
Proof.
  intros ti msg Hpos Hlen. unfold lineEdit.
  destruct (textinput.focus ti); simpl; [|auto].
  destruct msg as [c|ins e|key|w h|n]; simpl; auto.
  destruct (String.eqb key "backspace").
  - simpl. split; [reflexivity|].
    destruct (textinput.value ti) as [|r rs] eqn:E using rev_ind.
    + simpl. lia.
    + rewrite removelast_last. rewrite length_app in Hlen. simpl in Hlen. lia.
  - destruct key as [|c [|c' k]]; simpl; auto.
    destruct (0 <? textinput.CharLimit ti) eqn:E1; simpl.
    + destruct (textinput.CharLimit ti <=?
                Z.of_nat (length (textinput.value ti))) eqn:E2; simpl; auto.
      apply Z.leb_gt in E2.
      destruct (128 <=? Z.of_N (N_of_ascii c)); simpl; auto.
      split; [reflexivity|]. rewrite length_app. simpl. lia.
    + apply Z.ltb_ge in E1. lia.
Qed.

(** ** The program on concrete messages *)

(** C1: a load completion that arrives during filter editing is
    handed to the text input and lost: after [f], a failed load leaves
    the model as it was, still [Loading] and without the error, where
    applying it gives [Failed]. *)
Theorem load_error_dropped_while_filtering :
  reachable lineEdit sampleConfig editingState /\
  step lineEdit editingState
    (instancesLoadedMsg [] (Some "AccessDenied")) = editingState /\
  loadStatus (step lineEdit editingState
                (instancesLoadedMsg [] (Some "AccessDenied"))) = Loading /\
  err (step lineEdit editingState
         (instancesLoadedMsg [] (Some "AccessDenied"))) = None /\
  loadStatus (applyLoad editingState [] (Some "AccessDenied"))
    = Failed "AccessDenied" /\
  loadStatus (steps lineEdit editingState
                [instancesLoadedMsg [prodInstance] None;
                 instancesLoadedMsg [] (Some "AccessDenied");
                 KeyMsg "esc"]) = Loading.
Proof.
  split; [apply reachable_steps; constructor|].
  repeat split.
Qed.

Lemma filter_editing_on_s3 :
  reachable lineEdit sampleConfig editingOnS3 /\
  filtering editingOnS3 = true /\
  currentScreen editingOnS3 = s3Screen /\
  currentScreen editingOnS3 <> ec2Screen.
Proof.
  split; [apply reachable_steps; constructor|].
  repeat split. discriminate.
Qed.

Lemma esc_leaves_buffer :
  reachable lineEdit sampleConfig envTypedState /\
  filtering envTypedState = true /\
  filter envTypedState = "" /\
  textinput.Value (filterInput envTypedState) = "Env" /\
  textinput.Value
    (filterInput (step lineEdit envTypedState (KeyMsg "esc"))) = "Env" /\
  textinput.Value
    (filterInput (step lineEdit envTypedState (KeyMsg "esc"))) <> "" /\
  filter (steps lineEdit envTypedState
            [KeyMsg "esc"; KeyMsg "f"; KeyMsg "enter"]) = "Env".
Proof.
  split; [apply reachable_steps; constructor|].
  repeat split. discriminate.
Qed.

Lemma q_typed_while_filtering :
  reachable lineEdit sampleConfig editingState /\
  filtering editingState = true /\
  run lineEdit editingState [KeyMsg "q"] =
    Running (step lineEdit editingState (KeyMsg "q")) /\
  run lineEdit editingState [KeyMsg "ctrl+c"] = Running editingState /\
  textinput.Value (filterInput (step lineEdit editingState (KeyMsg "q")))
    = "q".
Proof.
  split; [apply reachable_steps; constructor|].
  repeat split.
Qed.

(** ** The theorems at concrete states *)

Lemma load_completion_from_loading_witness :
  loadStatus startState = Loading /\
  filtering startState = false /\
  Part000.loadStatus sampleOld = Loading /\
  (forall instances,
      let m' := step lineEdit startState (instancesLoadedMsg instances None) in
      let old' :=
        fst (Part000.Update sampleOld (instancesLoadedMsg instances None)) in
      loadStatus m' = Ready /\ ec2Instances m' = instances /\
      Part000.loadStatus old' = Ready /\
      Part000.ec2Instances old' = instances) /\
  (forall instances e,
      let m' :=
        step lineEdit startState (instancesLoadedMsg instances (Some e)) in
      let old' :=
        fst (Part000.Update sampleOld
               (instancesLoadedMsg instances (Some e))) in
      loadStatus m' = Failed e /\ err m' = Some e /\
      ec2Instances m' = ec2Instances startState /\
      Part000.loadStatus old' = Failed e /\ Part000.err old' = Some e /\
      Part000.ec2Instances old' = Part000.ec2Instances sampleOld).
Proof.
  split; [reflexivity|]. split; [reflexivity|]. split; [reflexivity|].
  apply (load_completion_from_loading lineEdit startState sampleOld);
    reflexivity.
Defined.

Lemma region_cycle_witness :
  filtering startState = false /\
  (forall i,
      index_of (Region (config startState)) (Regions (config startState))
        = Some i ->
      let m' := step lineEdit startState (KeyMsg "c") in
      Region (config m') =
        nth (((i + 1) mod length (Regions (config startState)))%nat)
            (Regions (config startState)) "" /\
      Regions (config m') = Regions (config startState) /\
      loadStatus m' = Loading /\
      snd (Update lineEdit startState (KeyMsg "c")) = initAWSClient m' /\
      (forall client,
          snd (Update lineEdit m' (ClientMsg client)) =
          loadEC2Instances (set_awsClient (Some client) m'))) /\
  (~ In (Region (config startState)) (Regions (config startState)) ->
   Update lineEdit startState (KeyMsg "c") = (startState, nilCmd)).
Proof.
  split; [reflexivity|].
  apply (region_cycle lineEdit startState). reflexivity.
Defined.

(** The specification's example: from [eu-west-1], the last of three
    regions, key [c] goes to [us-east-1]. *)
Example region_wraps_around :
  Region (config (step lineEdit startState (KeyMsg "c"))) = "us-east-1".
Proof. reflexivity. Qed.

Lemma filter_editing_entry_witness :
  filtering startState = false /\
  filtering editingOnS3 = true /\
  (filtering (step lineEdit startState (KeyMsg "f")) = true /\
   currentScreen (step lineEdit startState (KeyMsg "f"))
     = currentScreen startState) /\
  (filtering (step lineEdit startState (KeyMsg "tab")) = true ->
   KeyMsg "tab" = KeyMsg "f") /\
  currentScreen (step lineEdit editingOnS3 (KeyMsg "tab"))
    = currentScreen editingOnS3.
Proof.
  split; [reflexivity|]. split; [reflexivity|].
  apply (filter_editing_entry lineEdit startState editingOnS3 (KeyMsg "tab"));
    reflexivity.
Defined.

Lemma esc_keeps_filter_witness :
  filtering editingState = true /\
  filtering startState = false /\
  forallb keepsEditing [KeyMsg "E"; KeyMsg "n"; KeyMsg "v"] = true /\
  Update lineEdit editingState (KeyMsg "esc")
    = (set_filtering false editingState, nilCmd) /\
  filterInput (step lineEdit editingState (KeyMsg "esc"))
    = filterInput editingState /\
  filter (step lineEdit editingState (KeyMsg "esc")) = filter editingState /\
  filtering (step lineEdit editingState (KeyMsg "esc")) = false /\
  filtering (steps lineEdit startState
               (KeyMsg "f" :: [KeyMsg "E"; KeyMsg "n"; KeyMsg "v"])) = true /\
  filter (steps lineEdit startState
            (KeyMsg "f" :: [KeyMsg "E"; KeyMsg "n"; KeyMsg "v"]
                           ++ [KeyMsg "esc"]))
    = filter startState /\
  filtering (steps lineEdit startState
               (KeyMsg "f" :: [KeyMsg "E"; KeyMsg "n"; KeyMsg "v"]
                              ++ [KeyMsg "esc"]))
    = false.
Proof.
  split; [reflexivity|]. split; [reflexivity|]. split; [reflexivity|].
  apply (esc_keeps_filter lineEdit editingState startState
           [KeyMsg "E"; KeyMsg "n"; KeyMsg "v"]); reflexivity.
Defined.

Lemma quit_when_navigating_witness :
  filtering startState = false /\
  filtering editingState = true /\
  ("q" = "q" \/ "q" = "ctrl+c") /\
  run lineEdit startState (KeyMsg "q" :: [KeyMsg "r"]) = Exited 0 startState /\
  Update lineEdit editingState (KeyMsg "q") =
    forwardToInput lineEdit editingState (KeyMsg "q") /\
  snd (Update lineEdit editingState (KeyMsg "q")) <> Quit /\
  filtering (step lineEdit editingState (KeyMsg "q")) = true.
Proof.
  split; [reflexivity|]. split; [reflexivity|].
  split; [left; reflexivity|].
  apply (quit_when_navigating lineEdit startState editingState "q"
           [KeyMsg "r"]);
    [reflexivity | reflexivity | left; reflexivity].
Defined.

Lemma filter_within_char_limit_witness :
  honoursCharLimit lineEdit /\
  reachable lineEdit sampleConfig
    (steps lineEdit startState [KeyMsg "f"; KeyMsg "E"; KeyMsg "enter"]) /\
  withinCharLimit
    (steps lineEdit startState [KeyMsg "f"; KeyMsg "E"; KeyMsg "enter"]).
Proof.
  split; [exact lineEdit_honours_limit|].
  split; [apply reachable_steps; constructor|].
  apply (filter_within_char_limit lineEdit sampleConfig
           (steps lineEdit startState
              [KeyMsg "f"; KeyMsg "E"; KeyMsg "enter"])).
  - exact lineEdit_honours_limit.
  - apply reachable_steps. constructor.
Defined.

(** The specification's example: typing [Env=prod] and [enter] commits
    that text and leaves filter editing. *)
Example enter_commits :
  filter (steps lineEdit startState
            [KeyMsg "f"; KeyMsg "E"; KeyMsg "n"; KeyMsg "v"; KeyMsg "=";
             KeyMsg "p"; KeyMsg "r"; KeyMsg "o"; KeyMsg "d"; KeyMsg "enter"])
  = "Env=prod".
Proof. reflexivity. Qed.

(** The limit at work: of 22 keys typed, 20 reach the filter text. *)
Example limit_cuts_typing :
  String.length
    (filter (steps lineEdit startState
               (KeyMsg "f" :: repeat (KeyMsg "a") 22 ++ [KeyMsg "enter"])))
  = 20%nat.
Proof. reflexivity. Qed.

(** * Further properties *)

(** ** The filter as a selection *)

Lemma filter_keep_all {A : Type} (l : list A) :
  List.filter (fun _ => true) l = l.
Proof. induction l as [|x l IH]; simpl; congruence. Qed.

Lemma filter_twice {A : Type} (keep : A -> bool) (l : list A) :
  List.filter keep (List.filter keep l) = List.filter keep l.
Proof.
  induction l as [|x l IH]; simpl; [reflexivity|].
  destruct (keep x) eqn:E; simpl; [rewrite E|]; congruence.
Qed.

Lemma filter_shorter {A : Type} (keep : A -> bool) (l : list A) :
  (length (List.filter keep l) <= length l)%nat.
Proof.
  induction l as [|x l IH]; simpl; [lia|].
  destruct (keep x); simpl; lia.
Qed.

Section FilterLaws.

Variable ToLower : string -> string.

(** Whatever the filter text, each instance is kept or dropped on its
    own account. *)
Lemma filteredInstances_pointwise (text : string) :
  exists keep : Instance -> bool,
    forall insts,
      filteredInstances ToLower insts text = List.filter keep insts.
Proof.
  unfold filteredInstances.
  destruct (String.eqb text "").
  - exists (fun _ => true). intros insts. now rewrite filter_keep_all.
  - destruct (strings.Contains text "=").
    + eexists. intros insts. rewrite tagFilterLoop_filter. reflexivity.
    + eexists. intros insts. rewrite stateFilterLoop_filter. reflexivity.
Qed.

(** X1: for every filter text the shown instances are a selection of
    the loaded ones: some test on single instances picks them, in the
    loaded order, so nothing is shown twice or invented and the shown
    list is no longer than the loaded one. *)
Theorem filter_is_selection (text : string) :
  exists keep : Instance -> bool,
    forall insts,
      filteredInstances ToLower insts text = List.filter keep insts /\
      (length (filteredInstances ToLower insts text) <= length insts)%nat /\
      incl (filteredInstances ToLower insts text) insts.
Proof.
  destruct (filteredInstances_pointwise text) as [keep Hk].
  exists keep. intros insts. rewrite Hk.
  split; [reflexivity|]. split; [apply filter_shorter|].
  intros x Hx. apply filter_In in Hx. tauto.
Qed.

(** X2: filtering a concatenation is concatenating the filtered
    parts. *)
Theorem filter_distributes_over_app (text : string)
    (front back : list Instance) :
  filteredInstances ToLower (front ++ back) text =
  (filteredInstances ToLower front text
     ++ filteredInstances ToLower back text)%list.
Proof.
  destruct (filteredInstances_pointwise text) as [keep Hk].
  rewrite !Hk. apply filter_app.
Qed.

(** X3: filtering the filtered list again with the same text changes
    nothing. *)
Theorem filter_idempotent (text : string) (insts : list Instance) :
  filteredInstances ToLower (filteredInstances ToLower insts text) text =
  filteredInstances ToLower insts text.
Proof.
  destruct (filteredInstances_pointwise text) as [keep Hk].
  rewrite !Hk. apply filter_twice.
Qed.

End FilterLaws.

(** ** [truncate] and the table rows *)

Lemma length_append (a b : string) :
  String.length (a ++ b) = (String.length a + String.length b)%nat.
Proof. induction a as [|c a IH]; simpl; congruence. Qed.

Lemma length_substring_0 (n : nat) (s : string) :
  (n <= String.length s)%nat ->
  String.length (String.substring 0 n s) = n.
Proof.
  revert s. induction n as [|n IH]; intros s Hn.
  - destruct s; reflexivity.
  - destruct s as [|c s]; simpl in *; [lia|].
    rewrite IH by lia. reflexivity.
Qed.

Lemma wrap64_small (z : Z) :
  -9223372036854775808 <= z < 9223372036854775808 -> wrap64 z = z.
Proof.
  intros H. unfold wrap64.
  rewrite Z.mod_small by lia. lia.
Qed.

Lemma truncate_short (s : string) (max : Z) :
  Z.of_nat (String.length s) <= max -> truncate s max = Some s.
Proof.
  intros H. unfold truncate.
  now rewrite (proj2 (Z.leb_le _ _) H).
Qed.

Lemma truncate_long (s : string) (max : Z) :
  3 <= max < 9223372036854775808 ->
  max < Z.of_nat (String.length s) ->
  truncate s max =
    Some (String.substring 0 (Z.to_nat (max - 3)) s ++ "...") /\
  Z.of_nat (String.length
              (String.substring 0 (Z.to_nat (max - 3)) s ++ "...")) = max.
Proof.
  intros Hmax Hlong. unfold truncate.
  rewrite (proj2 (Z.leb_gt _ _) Hlong), wrap64_small by lia.
  assert ((max - 3 <? 0) = false) as -> by (apply Z.ltb_ge; lia).
  assert ((Z.of_nat (String.length s) <? max - 3) = false) as ->
    by (apply Z.ltb_ge; lia).
  split; [reflexivity|].
  rewrite length_append, length_substring_0 by lia. simpl. lia.
Qed.

Lemma truncate_at_30 (name : string) :
  exists cell,
    truncate name 30 = Some cell /\ (String.length cell <= 30)%nat.
Proof.
  destruct (Z_le_gt_dec (Z.of_nat (String.length name)) 30) as [H|H].
  - exists name. split; [now apply truncate_short | lia].
  - destruct (truncate_long name 30) as [E L]; [lia | lia |].
    eexists. split; [exact E | lia].
Qed.

(** X4: with a limit of at least 3, [truncate] returns a string of at
    most [max] bytes: the input itself when it fits, and otherwise its
    first [max - 3] bytes followed by three dots, [max] bytes in all. *)
Theorem truncate_fits (s : string) (max : Z) :
  3 <= max < 9223372036854775808 ->
  exists r,
    truncate s max = Some r /\
    Z.of_nat (String.length r) <= max /\
    (Z.of_nat (String.length s) <= max -> r = s) /\
    (max < Z.of_nat (String.length s) ->
     r = String.substring 0 (Z.to_nat (max - 3)) s ++ "..." /\
     Z.of_nat (String.length r) = max).
Proof.
  intros Hmax.
  destruct (Z_le_gt_dec (Z.of_nat (String.length s)) max) as [H|H].
  - exists s. split; [now apply truncate_short|].
    repeat split; auto; lia.
  - destruct (truncate_long s max Hmax) as [E L]; [lia|].
    eexists. split; [exact E|]. rewrite L.
    repeat split; lia.
Qed.

(** X5: [truncate] panics exactly when the string is longer than the
    limit and the limit is below 3, where the slice bound [max - 3] is
    negative. *)
Theorem truncate_panics_iff (s : string) (max : Z) :
  -9223372036854775805 <= max < 9223372036854775808 ->
  (truncate s max = None <->
   max < Z.of_nat (String.length s) /\ max < 3).
Proof.
  intros Hmax. unfold truncate.
  destruct (Z.of_nat (String.length s) <=? max) eqn:E.
  - apply Z.leb_le in E. split; [discriminate | lia].
  - apply Z.leb_gt in E. rewrite wrap64_small by lia.
    destruct (max - 3 <? 0) eqn:E1; simpl.
    + apply Z.ltb_lt in E1. split; [lia | reflexivity].
    + apply Z.ltb_ge in E1.
      assert ((Z.of_nat (String.length s) <? max - 3) = false) as ->
        by (apply Z.ltb_ge; lia).
      split; [discriminate | lia].
Qed.

Lemma rowOf_total (dash : string) (inst : Instance) :
  exists row,
    rowOf dash inst = Some row /\
    rowID row = ID inst /\
    (String.length (rowName row) <= 30)%nat /\
    rowIP row <> "" /\
    (PublicIP inst <> "" -> rowIP row = PublicIP inst) /\
    (PublicIP inst = "" -> PrivateIP inst <> "" ->
     rowIP row = PrivateIP inst) /\
    (PublicIP inst = "" -> PrivateIP inst = "" -> rowIP row = "-").
Proof.
  unfold rowOf.
  set (name := if String.eqb (Name inst) "" then dash else Name inst).
  destruct (truncate_at_30 name) as (cell & -> & Hcell).
  eexists. split; [reflexivity|]. simpl. split; [reflexivity|].
  split; [exact Hcell|].
  destruct (String.eqb_spec (PublicIP inst) "") as [Hp|Hp].
  - destruct (String.eqb_spec (PrivateIP inst) "") as [Hq|Hq].
    + repeat split; intros; congruence.
    + repeat split; intros; congruence.
  - cbv iota. rewrite (proj2 (String.eqb_neq _ _) Hp).
    repeat split; intros; congruence.
Qed.

(** X6: building the table never panics: every instance gets a row
    with its id, in order; a name cell is at most 30 bytes long; an IP
    cell is never empty: it is the public IP when there is one, else
    the private IP when there is one, else a dash. *)
Theorem table_rows_total (dash : string) (insts : list Instance) :
  exists rows,
    tableRows dash insts = Some rows /\
    Forall2 (fun inst row =>
               rowID row = ID inst /\
               (String.length (rowName row) <= 30)%nat /\
               rowIP row <> "" /\
               (PublicIP inst <> "" -> rowIP row = PublicIP inst) /\
               (PublicIP inst = "" -> PrivateIP inst <> "" ->
                rowIP row = PrivateIP inst) /\
               (PublicIP inst = "" -> PrivateIP inst = "" ->
                rowIP row = "-"))
            insts rows.
Proof.
  induction insts as [|inst rest (rows & Hrows & Hall)].
  - exists []. split; [reflexivity | constructor].
  - destruct (rowOf_total dash inst) as (row & Hrow & Hfacts).
    exists (row :: rows). simpl. rewrite Hrow, Hrows.
    split; [reflexivity|]. constructor; assumption.
Qed.

(** ** More on the reducer *)

Section Reducer.

Variable input_Update : textinput.Model -> Msg -> textinput.Model * option nat.

Ltac case_ifs :=
  repeat match goal with
         | |- context [if ?b then _ else _] => destruct b eqn:?
         end.

Lemma step_screen_range (m : model) (msg : Msg) :
  screenInRange (currentScreen m) ->
  screenInRange (currentScreen (step input_Update m msg)).
Proof.
  intros Hr. destruct (filtering m) eqn:Hf.
  - now rewrite step_filtering_screen.
  - pose proof (cycleRegion_frame m) as (_ & _ & C3 & _). simpl in C3.
    unfold step, Update. rewrite Hf.
    destruct msg as [c|ins e|key|w h|n]; simpl; auto.
    + destruct e; simpl; auto.
    + unfold screenInRange.
      case_ifs; simpl; try rewrite C3; auto.
      destruct Hr as [-> | [-> | ->]]; compute; auto.
Qed.

Lemma reachable_screen_range (cfg : Config) (m : model) :
  reachable input_Update cfg m -> screenInRange (currentScreen m).
Proof.
  intros Hr. induction Hr as [|m msg Hr IH].
  - left. reflexivity.
  - now apply step_screen_range.
Qed.

(** X7: in every reachable state the screen is one of the three
    constants, so [View] draws exactly one tab active and a content
    panel for it. *)
Theorem reachable_shows_one_screen (ToLower : string -> string)
    (cfg : Config) (m : model) :
  reachable input_Update cfg m ->
  screenInRange (currentScreen m) /\
  count_occ bool_dec
    [ec2Tab (View ToLower m); s3Tab (View ToLower m);
     eksTab (View ToLower m)] true = 1%nat /\
  content (View ToLower m) <> EmptyPanel.
Proof.
  intros Hr. pose proof (reachable_screen_range cfg m Hr) as H.
  split; [exact H|]. unfold View. simpl.
  destruct H as [-> | [-> | ->]]; split; try reflexivity; discriminate.
Qed.

(** X8: in a reachable state outside filter editing, three [tab] keys
    bring back the very same model. *)
Theorem tab_thrice (cfg : Config) (m : model) :
  reachable input_Update cfg m ->
  filtering m = false ->
  steps input_Update m [KeyMsg "tab"; KeyMsg "tab"; KeyMsg "tab"] = m.
Proof.
  intros Hr Hf. pose proof (reachable_screen_range cfg m Hr) as H.
  destruct m as [cs w h cl ins ld er cf ti fl ft]. simpl in *. subst fl.
  destruct H as [-> | [-> | ->]]; reflexivity.
Qed.

(** What a step can do to the configuration. *)
Lemma step_config_cases (m : model) (msg : Msg) :
  config (step input_Update m msg) = config m \/
  (Regions (config (step input_Update m msg)) = Regions (config m) /\
   In (Region (config (step input_Update m msg))) (Regions (config m))).
Proof.
  destruct (filtering m) eqn:Hf.
  - left. unfold step, Update. rewrite Hf.
    assert (config (fst (forwardToInput input_Update m msg)) = config m) as F
      by (unfold forwardToInput;
          destruct (input_Update (filterInput m) msg); reflexivity).
    destruct msg as [c|ins e|key|w h|n]; try exact F.
    case_ifs; try reflexivity. exact F.
  - unfold step, Update. rewrite Hf.
    destruct msg as [c|ins e|key|w h|n]; simpl; auto.
    + destruct e; simpl; auto.
    + destruct (String.eqb_spec key "c") as [->|Hc];
        [|case_ifs; simpl; auto].
      * simpl.
        unfold cycleRegion. rewrite regionLoop_index_of.
        destruct (index_of (Region (config m)) (Regions (config m)))
          as [i|] eqn:Hi; [|left; reflexivity].
        pose proof (index_of_lt _ _ _ Hi) as Hlt.
        assert ((0 + Z.of_nat i =? -1) = false) as ->
          by (apply Z.eqb_neq; lia).
        right. simpl. split; [reflexivity|].
        apply nth_In. rewrite Z.rem_mod_nonneg by lia.
        apply Nat2Z.inj_lt. rewrite Z2Nat.id.
        -- apply Z.mod_pos_bound. lia.
        -- apply Z.mod_pos_bound. lia.
Qed.

(** X9: the list of selectable regions never changes, and the
    selected region is always the configured one or a member of that
    list. *)
Theorem regions_stay (cfg : Config) (m : model) :
  reachable input_Update cfg m ->
  Regions (config m) = Regions cfg /\
  (Region (config m) = Region cfg \/ In (Region (config m)) (Regions cfg)).
Proof.
  intros Hr. induction Hr as [|m msg Hr [IH1 IH2]].
  - split; [reflexivity | left; reflexivity].
  - destruct (step_config_cases m msg) as [-> | [H1 H2]].
    + split; assumption.
    + rewrite H1, <- IH1. split; [reflexivity | right; exact H2].
Qed.

Lemma index_of_nth_NoDup (regions : list string) (j : nat) :
  NoDup regions ->
  (j < length regions)%nat ->
  index_of (nth j regions "") regions = Some j.
Proof.
  revert j. induction regions as [|r rest IH]; intros j Hnd Hj.
  - simpl in Hj. lia.
  - inversion Hnd as [|? ? Hnotin Hrest]; subst.
    destruct j as [|j]; simpl.
    + now rewrite String.eqb_refl.
    + simpl in Hj.
      assert (String.eqb r (nth j rest "") = false) as ->.
      { apply String.eqb_neq. intros ->. apply Hnotin.
        apply nth_In. lia. }
      rewrite IH by (assumption || lia). reflexivity.
Qed.

Lemma cycle_step (m : model) (i : nat) :
  filtering m = false ->
  index_of (Region (config m)) (Regions (config m)) = Some i ->
  filtering (step input_Update m (KeyMsg "c")) = false /\
  Regions (config (step input_Update m (KeyMsg "c"))) = Regions (config m) /\
  Region (config (step input_Update m (KeyMsg "c"))) =
    nth (((i + 1) mod length (Regions (config m)))%nat)
        (Regions (config m)) "".
Proof.
  intros Hf Hi. unfold step. rewrite Update_key_c by exact Hf.
  unfold cycleRegion. rewrite regionLoop_index_of, Hi.
  pose proof (index_of_lt _ _ _ Hi) as Hlt.
  assert ((0 + Z.of_nat i =? -1) = false) as -> by (apply Z.eqb_neq; lia).
  assert (Z.to_nat (Z.rem (0 + Z.of_nat i + 1)
                      (Z.of_nat (length (Regions (config m))))) =
          ((i + 1) mod length (Regions (config m)))%nat) as ->.
  { rewrite Z.rem_mod_nonneg by lia.
    replace (0 + Z.of_nat i + 1) with (Z.of_nat (i + 1)) by lia.
    rewrite <- Nat2Z.inj_mod. apply Nat2Z.id. }
  simpl. auto.
Qed.

Lemma cycle_steps (k : nat) :
  forall (m : model) (i : nat),
    filtering m = false ->
    NoDup (Regions (config m)) ->
    index_of (Region (config m)) (Regions (config m)) = Some i ->
    Region (config (steps input_Update m (repeat (KeyMsg "c") k))) =
      nth (((i + k) mod length (Regions (config m)))%nat)
          (Regions (config m)) "".
Proof.
  induction k as [|k IH]; intros m i Hf Hnd Hi.
  - pose proof (index_of_lt _ _ _ Hi) as Hlt.
    destruct (index_of_first _ _ _ Hi) as [Hn _].
    simpl. rewrite Nat.add_0_r, Nat.mod_small by exact Hlt.
    symmetry. exact Hn.
  - pose proof (index_of_lt _ _ _ Hi) as Hlt.
    destruct (cycle_step m i Hf Hi) as (Hf' & Hregs & Hreg).
    change (steps input_Update m (repeat (KeyMsg "c") (S k)))
      with (steps input_Update (step input_Update m (KeyMsg "c"))
              (repeat (KeyMsg "c") k)).
    set (n := length (Regions (config m))) in *.
    assert (((i + 1) mod n < n)%nat) as Hmod
      by (apply Nat.mod_upper_bound; lia).
    rewrite (IH _ ((i + 1) mod n)%nat Hf').
    + rewrite Hregs. fold n.
      rewrite Nat.Div0.add_mod_idemp_l.
      replace (i + 1 + k)%nat with (i + S k)%nat by lia. reflexivity.
    + now rewrite Hregs.
    + rewrite Hreg, Hregs. now apply index_of_nth_NoDup.
Qed.

(** X10: when the selectable regions are pairwise different and the
    current one is among them at index [i], [k] presses of [c] outside
    filter editing select the region at index [(i + k) mod len]; as
    many presses as there are regions select the current one again. *)
Theorem cycling_regions_repeats (m : model) (i k : nat) :
  filtering m = false ->
  NoDup (Regions (config m)) ->
  index_of (Region (config m)) (Regions (config m)) = Some i ->
  Region (config (steps input_Update m (repeat (KeyMsg "c") k))) =
    nth (((i + k) mod length (Regions (config m)))%nat)
        (Regions (config m)) "" /\
  Region (config (steps input_Update m
                    (repeat (KeyMsg "c") (length (Regions (config m))))))
    = Region (config m).
Proof.
  intros Hf Hnd Hi. split; [now apply cycle_steps|].
  rewrite (cycle_steps _ m i Hf Hnd Hi).
  pose proof (index_of_lt _ _ _ Hi) as Hlt.
  destruct (index_of_first _ _ _ Hi) as [Hn _].
  rewrite <- Nat.Div0.add_mod_idemp_r, Nat.Div0.mod_same, Nat.add_0_r.
  rewrite Nat.mod_small by exact Hlt. exact Hn.
Qed.

(** X11: the committed filter text changes in one way only: by
    [enter] during filter editing, and then to the value of the text
    input. *)
Theorem filter_changes_on_enter_only (m : model) (msg : Msg) :
  filter (step input_Update m msg) <> filter m ->
  filtering m = true /\ msg = KeyMsg "enter" /\
  filter (step input_Update m msg) = textinput.Value (filterInput m).
Proof.
  pose proof (forwardToInput_frame input_Update m msg) as (_ & F2 & _).
  pose proof (cycleRegion_frame m) as (_ & C2 & _).
  simpl in F2, C2.
  unfold step, Update. destruct (filtering m).
  - destruct msg as [c|ins e|key|w h|n]; try congruence.
    destruct (String.eqb key "enter") eqn:E.
    + simpl. intros _. apply String.eqb_eq in E. subst key. auto.
    + case_ifs; simpl; congruence.
  - destruct msg as [c|ins e|key|w h|n]; simpl; try congruence.
    + destruct e; simpl; congruence.
    + case_ifs; simpl; congruence.
Qed.

(** X12: during filter editing no message changes the screen, the
    viewport size, the client, the instances, the load state, the
    error or the configuration, and no message makes [Update] return
    [tea.Quit] or a client or load request. *)
Theorem filtering_frame (m : model) (msg : Msg) :
  filtering m = true ->
  toPart000 (step input_Update m msg) = toPart000 m /\
  config (step input_Update m msg) = config m /\
  match snd (Update input_Update m msg) with
  | nilCmd | inputCmd _ => True
  | _ => False
  end.
Proof.
  intros Hf. unfold step, Update. rewrite Hf.
  assert (toPart000 (fst (forwardToInput input_Update m msg)) = toPart000 m /\
          config (fst (forwardToInput input_Update m msg)) = config m /\
          match snd (forwardToInput input_Update m msg) with
          | nilCmd | inputCmd _ => True
          | _ => False
          end) as F.
  { unfold forwardToInput.
    destruct (input_Update (filterInput m) msg) as [ti [tag|]];
      simpl; auto. }
  destruct msg as [c|ins e|key|w h|n]; try exact F.
  case_ifs; simpl; auto.
Qed.

(** X13: [esc] keeps the text input as it is: after [esc], the keys
    [f] and [enter] commit what the input held before [esc]. *)
Theorem esc_retains_buffer (m : model) :
  filtering m = true ->
  filter (steps input_Update m [KeyMsg "esc"; KeyMsg "f"; KeyMsg "enter"])
    = textinput.Value (filterInput m) /\
  filtering (steps input_Update m [KeyMsg "esc"; KeyMsg "f"; KeyMsg "enter"])
    = false.
Proof.
  intros Hf.
  destruct m as [cs w h cl ins ld er cf ti fl ft]. simpl in Hf. subst fl.
  split; reflexivity.
Qed.

Lemma loading_kept_when_filtering (m : model) (msg : Msg) :
  filtering m = true ->
  loading (step input_Update m msg) = loading m.
Proof.
  intros Hf. unfold step, Update. rewrite Hf.
  assert (loading (fst (forwardToInput input_Update m msg)) = loading m) as F
    by (unfold forwardToInput;
        destruct (input_Update (filterInput m) msg); reflexivity).
  destruct msg as [c|ins e|key|w h|n]; try exact F.
  case_ifs; try reflexivity. exact F.
Qed.

Lemma cycleRegion_loading (m : model) :
  loading m = false ->
  loading (fst (cycleRegion m)) = true ->
  In (Region (config m)) (Regions (config m)).
Proof.
  unfold cycleRegion. rewrite regionLoop_index_of.
  destruct (index_of (Region (config m)) (Regions (config m)))
    as [i|] eqn:Hi.
  - intros _ _.
    destruct (in_dec string_dec (Region (config m)) (Regions (config m)))
      as [Hin|Hn]; [exact Hin|].
    apply index_of_None in Hn. congruence.
  - simpl. congruence.
Qed.

(** X14: [loading] is switched on by two keys only, both outside
    filter editing: [r] on the EC2 screen, and [c] when the current
    region is in the list. *)
Theorem loading_set_by_r_or_c (m : model) (msg : Msg) :
  loading m = false ->
  loading (step input_Update m msg) = true ->
  filtering m = false /\
  ((msg = KeyMsg "r" /\ currentScreen m = ec2Screen) \/
   (msg = KeyMsg "c" /\ In (Region (config m)) (Regions (config m)))).
Proof.
  intros Hl.
  pose proof (loading_kept_when_filtering m msg) as F.
  destruct (filtering m) eqn:Hf.
  - rewrite (F eq_refl). congruence.
  - clear F. pose proof (cycleRegion_loading m Hl) as C.
    unfold step, Update. rewrite Hf.
    destruct msg as [c|ins e|key|w h|n]; simpl; try congruence.
    + destruct e; simpl; congruence.
    + destruct (String.eqb_spec key "c") as [->|Hc].
      * simpl. intros H. split; [reflexivity|]. right. auto.
      * destruct (String.eqb_spec key "r") as [->|Hr].
        -- simpl. destruct (currentScreen m =? ec2Screen) eqn:E;
             [|simpl; congruence].
           apply Z.eqb_eq in E. intros _. split; [reflexivity|]. left. auto.
        -- case_ifs; simpl; congruence.
Qed.

Lemma fold_applyLoad_filtering (loads : list (list Instance * error))
    (m : model) :
  filtering (fold_left (fun acc l => applyLoad acc (fst l) (snd l)) loads m)
  = filtering m.
Proof.
  revert m. induction loads as [|[ins e] rest IH]; intros m; simpl.
  - reflexivity.
  - rewrite IH. apply applyLoad_filtering.
Qed.

(** X15: outside filter editing the last load completion to arrive
    decides: after any completions followed by a last one, [loading]
    is off, the error is the last one's, a successful last one sets its
    instances, and the load status is [Ready] or [Failed] accordingly. *)
Theorem last_load_wins (m : model) (loads : list (list Instance * error))
    (instances : list Instance) (e : error) :
  filtering m = false ->
  let m' :=
    steps input_Update m
      (map (fun l => instancesLoadedMsg (fst l) (snd l))
           (loads ++ [(instances, e)])) in
  loading m' = false /\ err m' = e /\
  (e = None -> ec2Instances m' = instances) /\
  loadStatus m' = match e with
                  | None => Ready
                  | Some text => Failed text
                  end.
Proof.
  intros Hf. cbv zeta. rewrite map_app, steps_app.
  rewrite (loads_applied_when_navigating input_Update m loads Hf).
  set (m1 := fold_left _ loads m).
  assert (filtering m1 = false) as Hf1
    by (unfold m1; now rewrite fold_applyLoad_filtering).
  change (steps input_Update m1
            (map (fun l => instancesLoadedMsg (fst l) (snd l))
               [(instances, e)]))
    with (fst (Update input_Update m1 (instancesLoadedMsg instances e))).
  rewrite Update_navigating_load by exact Hf1.
  destruct e; simpl; repeat split; congruence.
Qed.

(** X16: outside filter editing, and for every message but the keys
    [c] and [f] that the older revision does not know, the newer
    [Update] does to the fields both revisions have what the older
    [Update] does, and it quits exactly when the older one does. *)
Theorem newer_update_extends_older (m : model) (msg : Msg) :
  filtering m = false ->
  msg <> KeyMsg "c" ->
  msg <> KeyMsg "f" ->
  toPart000 (step input_Update m msg) =
    fst (Part000.Update (toPart000 m) msg) /\
  (snd (Update input_Update m msg) = Quit <->
   snd (Part000.Update (toPart000 m) msg) = Part000.Quit).
Proof.
  intros Hf Hc Hk. unfold step, Update, Part000.Update. rewrite Hf.
  destruct msg as [c|ins e|key|w h|n]; simpl.
  - split; [reflexivity | split; discriminate].
  - destruct e; simpl; (split; [reflexivity | split; discriminate]).
  - destruct (String.eqb_spec key "c") as [->|_]; [congruence|].
    destruct (String.eqb_spec key "f") as [->|_]; [congruence|].
    case_ifs; simpl;
      (split; [reflexivity | split; (reflexivity || discriminate)]).
  - split; [reflexivity | split; discriminate].
  - split; [reflexivity | split; discriminate].
Qed.

End Reducer.

(** ** The older revision *)

Lemma older_step_screen_range (m : Part000.model) (msg : Msg) :
  screenInRange (Part000.currentScreen m) ->
  screenInRange (Part000.currentScreen (fst (Part000.Update m msg))).
Proof.
  intros Hr. unfold Part000.Update.
  destruct msg as [c|ins e|key|w h|n]; simpl; auto.
  unfold screenInRange.
  repeat match goal with
         | |- context [if ?b then _ else _] => destruct b eqn:?
         end; simpl; auto.
  destruct Hr as [-> | [-> | ->]]; compute; auto.
Qed.

Lemma older_reachable_screen_range (m : Part000.model) :
  reachable000 m -> screenInRange (Part000.currentScreen m).
Proof.
  intros Hr. induction Hr as [|m msg Hr IH].
  - left. reflexivity.
  - now apply older_step_screen_range.
Qed.

(** X17: the older revision has no mode that swallows messages: in any
    state, after any load completions followed by a last one, [loading]
    is off, the error is the last one's, a successful last one sets its
    instances, and the load status follows. *)
Theorem older_revision_last_load (m : Part000.model)
    (loads : list (list Instance * error))
    (instances : list Instance) (e : error) :
  Part000.loading
    (steps000 m (map (fun l => instancesLoadedMsg (fst l) (snd l))
                     (loads ++ [(instances, e)]))) = false /\
  Part000.err
    (steps000 m (map (fun l => instancesLoadedMsg (fst l) (snd l))
                     (loads ++ [(instances, e)]))) = e /\
  (e = None ->
   Part000.ec2Instances
     (steps000 m (map (fun l => instancesLoadedMsg (fst l) (snd l))
                      (loads ++ [(instances, e)]))) = instances) /\
  Part000.loadStatus
    (steps000 m (map (fun l => instancesLoadedMsg (fst l) (snd l))
                     (loads ++ [(instances, e)])))
  = match e with
    | None => Ready
    | Some text => Failed text
    end.
Proof.
  unfold steps000. rewrite map_app, fold_left_app. simpl.
  destruct e; simpl; repeat split; congruence.
Qed.

(** X18: in every state the older revision can reach, the screen is
    one of the three constants and three [tab] keys bring back the very
    same model. *)
Theorem older_revision_tabs (m : Part000.model) :
  reachable000 m ->
  screenInRange (Part000.currentScreen m) /\
  steps000 m [KeyMsg "tab"; KeyMsg "tab"; KeyMsg "tab"] = m.
Proof.
  intros Hr. pose proof (older_reachable_screen_range m Hr) as H.
  split; [exact H|].
  destruct m as [cs w h cl ins ld er]. simpl in H.
  destruct H as [-> | [-> | ->]]; reflexivity.
Qed.

(** ** The further theorems at concrete inputs *)

Lemma truncate_fits_witness :
  3 <= 30 < 9223372036854775808 /\
  exists r,
    truncate "a-rather-long-instance-name-for-a-table" 30 = Some r /\
    Z.of_nat (String.length r) <= 30 /\
    (Z.of_nat (String.length "a-rather-long-instance-name-for-a-table") <= 30
     -> r = "a-rather-long-instance-name-for-a-table") /\
    (30 < Z.of_nat (String.length "a-rather-long-instance-name-for-a-table")
     -> r = String.substring 0 (Z.to_nat (30 - 3))
              "a-rather-long-instance-name-for-a-table" ++ "..." /\
        Z.of_nat (String.length r) = 30).
Proof.
  split; [lia|].
  apply (truncate_fits "a-rather-long-instance-name-for-a-table" 30). lia.
Defined.

Example truncate_long_name :
  truncate "a-rather-long-instance-name-for-a-table" 30
  = Some "a-rather-long-instance-name...".
Proof. reflexivity. Qed.

Lemma truncate_panics_iff_witness :
  -9223372036854775805 <= 2 < 9223372036854775808 /\
  (truncate "abc" 2 = None <->
   2 < Z.of_nat (String.length "abc") /\ 2 < 3).
Proof.
  split; [lia|]. apply (truncate_panics_iff "abc" 2). lia.
Defined.

Lemma reachable_shows_one_screen_witness :
  reachable lineEdit sampleConfig editingOnS3 /\
  screenInRange (currentScreen editingOnS3) /\
  count_occ bool_dec
    [ec2Tab (View asciiToLower editingOnS3);
     s3Tab (View asciiToLower editingOnS3);
     eksTab (View asciiToLower editingOnS3)] true = 1%nat /\
  content (View asciiToLower editingOnS3) <> EmptyPanel.
Proof.
  split; [apply reachable_steps; constructor|].
  apply (reachable_shows_one_screen lineEdit asciiToLower sampleConfig
           editingOnS3).
  apply reachable_steps. constructor.
Defined.

Lemma tab_thrice_witness :
  reachable lineEdit sampleConfig startState /\
  filtering startState = false /\
  steps lineEdit startState [KeyMsg "tab"; KeyMsg "tab"; KeyMsg "tab"]
  = startState.
Proof.
  split; [constructor|]. split; [reflexivity|].
  apply (tab_thrice lineEdit sampleConfig startState);
    [constructor | reflexivity].
Defined.

Lemma regions_stay_witness :
  reachable lineEdit sampleConfig
    (steps lineEdit startState [KeyMsg "c"; KeyMsg "c"]) /\
  Regions (config (steps lineEdit startState [KeyMsg "c"; KeyMsg "c"]))
    = Regions sampleConfig /\
  (Region (config (steps lineEdit startState [KeyMsg "c"; KeyMsg "c"]))
     = Region sampleConfig \/
   In (Region (config (steps lineEdit startState [KeyMsg "c"; KeyMsg "c"])))
      (Regions sampleConfig)).
Proof.
  split; [apply reachable_steps; constructor|].
  apply (regions_stay lineEdit sampleConfig
           (steps lineEdit startState [KeyMsg "c"; KeyMsg "c"])).
  apply reachable_steps. constructor.
Defined.

Lemma sampleConfig_NoDup : NoDup (Regions sampleConfig).
Proof.
  repeat constructor; simpl; intuition discriminate.
Qed.

Lemma cycling_regions_repeats_witness :
  filtering startState = false /\
  NoDup (Regions (config startState)) /\
  index_of (Region (config startState)) (Regions (config startState))
    = Some 2%nat /\
  Region (config (steps lineEdit startState (repeat (KeyMsg "c") 2))) =
    nth (((2 + 2) mod length (Regions (config startState)))%nat)
        (Regions (config startState)) "" /\
  Region (config (steps lineEdit startState
                    (repeat (KeyMsg "c")
                       (length (Regions (config startState))))))
    = Region (config startState).
Proof.
  split; [reflexivity|]. split; [exact sampleConfig_NoDup|].
  split; [reflexivity|].
  apply (cycling_regions_repeats lineEdit startState 2 2);
    [reflexivity | exact sampleConfig_NoDup | reflexivity].
Defined.

Lemma filter_changes_on_enter_only_witness :
  filter (step lineEdit typedState (KeyMsg "enter")) <> filter typedState /\
  filtering typedState = true /\
  KeyMsg "enter" = KeyMsg "enter" /\
  filter (step lineEdit typedState (KeyMsg "enter"))
    = textinput.Value (filterInput typedState).
Proof.
  split; [discriminate|].
  apply (filter_changes_on_enter_only lineEdit typedState (KeyMsg "enter")).
  discriminate.
Defined.

Lemma filtering_frame_witness :
  filtering editingState = true /\
  toPart000 (step lineEdit editingState
               (ClientMsg {| GetRegion := "eu-west-1" |}))
    = toPart000 editingState /\
  config (step lineEdit editingState (ClientMsg {| GetRegion := "eu-west-1" |}))
    = config editingState /\
  match snd (Update lineEdit editingState
               (ClientMsg {| GetRegion := "eu-west-1" |})) with
  | nilCmd | inputCmd _ => True
  | _ => False
  end.
Proof.
  split; [reflexivity|].
  apply (filtering_frame lineEdit editingState
           (ClientMsg {| GetRegion := "eu-west-1" |})).
  reflexivity.
Defined.

Lemma esc_retains_buffer_witness :
  filtering typedState = true /\
  filter (steps lineEdit typedState
            [KeyMsg "esc"; KeyMsg "f"; KeyMsg "enter"])
    = textinput.Value (filterInput typedState) /\
  filtering (steps lineEdit typedState
               [KeyMsg "esc"; KeyMsg "f"; KeyMsg "enter"])
    = false.
Proof.
  split; [reflexivity|].
  apply (esc_retains_buffer lineEdit typedState). reflexivity.
Defined.

Lemma loading_set_by_r_or_c_witness :
  loading failedState = false /\
  loading (step lineEdit failedState (KeyMsg "r")) = true /\
  filtering failedState = false /\
  ((KeyMsg "r" = KeyMsg "r" /\ currentScreen failedState = ec2Screen) \/
   (KeyMsg "r" = KeyMsg "c" /\
    In (Region (config failedState)) (Regions (config failedState)))).
Proof.
  split; [reflexivity|]. split; [reflexivity|].
  apply (loading_set_by_r_or_c lineEdit failedState (KeyMsg "r"));
    reflexivity.
Defined.

Lemma last_load_wins_witness :
  filtering startState = false /\
  let m' :=
    steps lineEdit startState
      (map (fun l => instancesLoadedMsg (fst l) (snd l))
           ([([prodInstance], None)] ++ [([], Some "AccessDenied")])) in
  loading m' = false /\ err m' = Some "AccessDenied" /\
  (Some "AccessDenied" = None -> ec2Instances m' = []) /\
  loadStatus m' = match Some "AccessDenied" with
                  | None => Ready
                  | Some text => Failed text
                  end.
Proof.
  split; [reflexivity|].
  apply (last_load_wins lineEdit startState [([prodInstance], None)]
           [] (Some "AccessDenied")).
  reflexivity.
Defined.

Lemma newer_update_extends_older_witness :
  filtering startState = false /\
  KeyMsg "r" <> KeyMsg "c" /\
  KeyMsg "r" <> KeyMsg "f" /\
  toPart000 (step lineEdit startState (KeyMsg "r")) =
    fst (Part000.Update (toPart000 startState) (KeyMsg "r")) /\
  (snd (Update lineEdit startState (KeyMsg "r")) = Quit <->
   snd (Part000.Update (toPart000 startState) (KeyMsg "r")) = Part000.Quit).
Proof.
  split; [reflexivity|]. split; [discriminate|]. split; [discriminate|].
  apply (newer_update_extends_older lineEdit startState (KeyMsg "r"));
    [reflexivity | discriminate | discriminate].
Defined.

Lemma older_revision_tabs_witness :
  reachable000 sampleOld /\
  screenInRange (Part000.currentScreen sampleOld) /\
  steps000 sampleOld [KeyMsg "tab"; KeyMsg "tab"; KeyMsg "tab"] = sampleOld.
Proof.
  split; [constructor|].
  apply (older_revision_tabs sampleOld). constructor.
Defined.

(** With a region listed twice the search stops at the first
    occurrence, and the regions after the second one are never
    selected. *)
Example duplicate_region_shortens_cycle :
  map (fun k =>
         Region (config
           (steps lineEdit
              (initialModel {| Region := "a";
                               Regions := ["a"; "b"; "a"; "c"] |})
              (repeat (KeyMsg "c") k))))
      [1; 2; 3; 4]%nat
  = ["b"; "a"; "b"; "a"].
Proof. reflexivity. Qed.
